(** * iree-torch: the benchmark driver's compile adapter and the e2e test driver

    A shallow embedding of
      - [torchdynamo_poc/torchbench.py]: the output normalizer
        [_unwrap_single_tuple_return], the compile adapter
        [torch_mlir_compiler] with its [forward] closure, [run] and [main];
      - [torchscript_e2e_main.py]: the expected-failure sets,
        [recursively_convert_to_numpy], [IREEInvoker] and [main].

    Python objects that the code mutates live in a store addressed by
    references; exceptions and [sys.exit] are results of a small state and
    error monad; everything the scripts import from other packages (torch,
    torch_mlir, iree, torchdynamo, torchbenchmark, torch_mlir_e2e_test) is a
    parameter of the section that uses it. *)

From Stdlib Require Import ZArith String List SpecFloat.
From stdpp Require Import base option list gmap strings.

#[local] Set Warnings "-register-all".
Local Open Scope string_scope.
Local Open Scope Z_scope.

(** ** Python values and exceptions *)

Module Py.

(** Keys of the dicts that travel through the scripts. *)
Inductive Key :=
| KStr (s : string)
| KInt (z : Z).

(** Contents of an array: the same for a device array and for the host
    array [np.asarray] makes of it. *)
Record ArrayData := {
  dtype : string;
  shape : list Z;
  elems : list Z
}.

(** The values the two scripts handle. [VObj] is an object of any class the
    scripts have no test for (a [torch.Tensor], [bytes], a [complex], ...). *)
Inductive PyVal :=
| VNone
| VDeviceArray (a : ArrayData)          (* ireert.DeviceArray *)
| VNdarray (a : ArrayData)              (* numpy.ndarray *)
| VTuple (xs : list PyVal)
| VList (xs : list PyVal)
| VDict (items : list (Key * PyVal))    (* in insertion order, distinct keys *)
| VStr (s : string)
| VFloat (f : spec_float)
| VInt (z : Z)
| VBool (b : bool)                      (* bool is a subclass of int *)
| VObj (cls : string) (id : Z).

(** What an exception says: a plain text, or the f-string
    [f"Unexpected Python type: {o}"] with the value it formats. *)
Inductive Message :=
| Text (s : string)
| UnexpectedPythonType (o : PyVal).

(** [Exception] stands for the class and for its subclasses other than
    [AssertionError]; [SystemExit], [KeyboardInterrupt] and [BaseException]
    (any other class outside [Exception]) are not caught by
    [except Exception]. *)
Inductive exn :=
| AssertionError (msg : string)
| Exception (what : Message)
| SystemExit (code : Z)
| KeyboardInterrupt
| BaseException (what : Message).

Definition is_Exception (e : exn) : bool :=
  match e with
  | AssertionError _ | Exception _ => true
  | SystemExit _ | KeyboardInterrupt | BaseException _ => false
  end.

(** A call that returns or raises. *)
Definition Res (A : Type) : Type := exn + A.

(** Exit status of the interpreter for a script whose last statement is
    [main()]: 0 when it returns, the low eight bits of the code of an
    uncaught [SystemExit], 130 for an uncaught [KeyboardInterrupt], and 1 for
    any other uncaught exception. *)
Definition exit_status {A : Type} (r : Res A) : Z :=
  match r with
  | inr _ => 0
  | inl (SystemExit code) => code mod 256
  | inl KeyboardInterrupt => 130
  | inl _ => 1
  end.

(** Induction over values that reaches inside tuples, lists and dicts. *)
Section PyVal_ind.
Variable P : PyVal -> Prop.
Hypothesis HNone : P VNone.
Hypothesis HDev : forall a, P (VDeviceArray a).
Hypothesis HNd : forall a, P (VNdarray a).
Hypothesis HTuple : forall xs, Forall P xs -> P (VTuple xs).
Hypothesis HList : forall xs, Forall P xs -> P (VList xs).
Hypothesis HDict : forall items, Forall (fun kv => P (snd kv)) items -> P (VDict items).
Hypothesis HStr : forall s, P (VStr s).
Hypothesis HFloat : forall f, P (VFloat f).
Hypothesis HInt : forall z, P (VInt z).
Hypothesis HBool : forall b, P (VBool b).
Hypothesis HObj : forall cls id, P (VObj cls id).

Fixpoint PyVal_nested_ind (v : PyVal) : P v :=
  match v with
  | VNone => HNone
  | VDeviceArray a => HDev a
  | VNdarray a => HNd a
  | VTuple xs =>
      HTuple xs ((fix go (l : list PyVal) : Forall P l :=
                    match l with
                    | [] => Forall_nil_2 P
                    | x :: l' => Forall_cons_2 P x l' (PyVal_nested_ind x) (go l')
                    end) xs)
  | VList xs =>
      HList xs ((fix go (l : list PyVal) : Forall P l :=
                   match l with
                   | [] => Forall_nil_2 P
                   | x :: l' => Forall_cons_2 P x l' (PyVal_nested_ind x) (go l')
                   end) xs)
  | VDict items =>
      HDict items ((fix go (l : list (Key * PyVal)) : Forall (fun kv => P (snd kv)) l :=
                      match l with
                      | [] => Forall_nil_2 _
                      | kv :: l' =>
                          Forall_cons_2 (fun kv => P (snd kv)) kv l'
                            (PyVal_nested_ind (snd kv)) (go l')
                      end) items)
  | VStr s => HStr s
  | VFloat f => HFloat f
  | VInt z => HInt z
  | VBool b => HBool b
  | VObj cls id => HObj cls id
  end.
End PyVal_ind.

End Py.

(** ** State and error monad

    A computation takes the state of the world, returns or raises, and leaves
    a new state. *)

Module Monad.
Import Py.

Definition M (S A : Type) : Type := S -> Res A * S.

Definition ret {S A} (a : A) : M S A := fun s => (inr a, s).

Definition bind {S A B} (m : M S A) (k : A -> M S B) : M S B :=
  fun s =>
    match m s with
    | (inr a, s') => k a s'
    | (inl e, s') => (inl e, s')
    end.

Definition raise {S A} (e : exn) : M S A := fun s => (inl e, s).

(** A call into a library that returns or raises and leaves the state alone. *)
Definition lift {S A} (r : Res A) : M S A := fun s => (r, s).

Definition modify {S} (f : S -> S) : M S unit := fun s => (inr tt, f s).

(** [try: m  except Exception as err: handler err] *)
Definition try_except_Exception {S A} (m : M S A) (handler : exn -> M S A) : M S A :=
  fun s =>
    match m s with
    | (inl err, s') => if is_Exception err then handler err s' else (inl err, s')
    | (inr a, s') => (inr a, s')
    end.

(** [sys.exit(code)] *)
Definition sys_exit {S A} (code : Z) : M S A := raise (SystemExit code).

(** [for _i in range(n): body] *)
Fixpoint for_range {S} (n : nat) (body : M S unit) : M S unit :=
  match n with
  | O => ret tt
  | Datatypes.S k => bind body (fun _ => for_range k body)
  end.

(** [for x in xs: body x] *)
Fixpoint for_each {S A} (xs : list A) (body : A -> M S unit) : M S unit :=
  match xs with
  | [] => ret tt
  | x :: rest => bind (body x) (fun _ => for_each rest body)
  end.

Declare Scope py_scope.
Delimit Scope py_scope with py.
Notation "x <- m ;; k" := (bind m (fun x => k))
  (at level 100, m at next level, right associativity) : py_scope.
Notation "m ;;; k" := (bind m (fun _ => k))
  (at level 100, right associativity) : py_scope.

End Monad.

(** ** torch.fx graphs *)

Module Fx.

(** An argument of a node: a node (by name), an immediate, or a tuple, list
    or dict of arguments. *)
Inductive Arg :=
| ANode (name : string)
| ATuple (elts : list Arg)
| AList (elts : list Arg)
| ADict (items : list (string * Arg))
| AInt (z : Z)
| AFloat (f : spec_float)
| ABool (b : bool)
| AStr (s : string)
| ANone.

Inductive Opcode :=
| placeholder
| get_attr
| call_function
| call_module
| call_method
| output.

Record Node := {
  name : string;
  op : Opcode;
  target : string;
  args : list Arg;
  kwargs : list (string * Arg)
}.

Record Graph := { nodes : list Node }.

Record GraphModule := { graph : Graph }.

(** [node.args = new_args] *)
Definition set_args (node : Node) (new_args : list Arg) : Node :=
  {| name := name node; op := op node; target := target node;
     args := new_args; kwargs := kwargs node |}.

Definition is_output (node : Node) : bool :=
  match op node with output => true | _ => false end.

(** The top-level argument lists of the graph's output nodes, in order. *)
Definition output_args (ns : list Node) : list (list Arg) :=
  map args (List.filter is_output ns).

Definition is_tuple (a : Arg) : bool :=
  match a with ATuple _ => true | _ => false end.

(** A group of exactly one element. *)
Definition is_single_tuple (a : Arg) : bool :=
  match a with ATuple [_] => true | _ => false end.

Fixpoint arg_size (a : Arg) : nat :=
  match a with
  | ATuple elts => Datatypes.S (list_sum (map arg_size elts))
  | AList elts => Datatypes.S (list_sum (map arg_size elts))
  | ADict items => Datatypes.S (list_sum (map (fun kv => arg_size (snd kv)) items))
  | _ => 1%nat
  end.

End Fx.

(** ** torchdynamo_poc/torchbench.py *)

Module TorchBench.
Import Py Monad Fx.
Local Open Scope py_scope.

(** What the script prints and the methods it calls on a graph module. *)
Inductive Event :=
| CallLint (fx_g : positive)             (* fx_g.graph.lint() *)
| CallRecompile (fx_g : positive)        (* fx_g.recompile() *)
| PrintModelNotFound (model : string)    (* f"Model {args.model} not found in torchbench." *)
| PrintRunning (model : string)          (* f"Running model {args.model}" *)
| PrintErr (err : exn)                   (* print(err) *)
| PrintFinished (ns : Z).                (* f"Finished in {end_time - start_time} ns" *)

(** The store of graph modules, by reference, and the events so far. *)
Record World := {
  heap : gmap positive GraphModule;
  events : list Event
}.

Definition emit (e : Event) : M World unit :=
  modify (fun w => {| heap := heap w; events := events w ++ [e] |}).

(** Reading the object a reference points to. *)
Definition deref (r : positive) : M World GraphModule :=
  fun w =>
    match heap w !! r with
    | Some gm => (inr gm, w)
    | None => (inl (BaseException (Text "dangling reference")), w)
    end.

(** Overwriting the object a reference points to. *)
Definition assign (r : positive) (gm : GraphModule) : M World unit :=
  modify (fun w => {| heap := <[r := gm]> (heap w); events := events w |}).

(** [x[0]] *)
Definition index0 {A} (xs : list A) : Res A :=
  match xs !! 0%nat with
  | Some x => inr x
  | None => inl (Exception (Text "IndexError"))
  end.

(** How one turn of the loop over the nodes ends. *)
Inductive Step :=
| Continue (unwrapped_tuple : bool)
| ReturnNone.

(** The body of the loop of [_unwrap_single_tuple_return] at one node: the
    node as the body leaves it, and how the turn ends. *)
Definition visit (node : Node) (unwrapped_tuple : bool) : Node * Res Step :=
  match op node with
  | output =>
      if negb (length (args node) =? 1)%nat
      then (node, inl (AssertionError "Output node must have a single argument"))
      else
        match index0 (args node) with
        | inl e => (node, inl e)
        | inr (ATuple node_arg) =>
            if (length node_arg =? 1)%nat
            then match index0 node_arg with
                 | inl e => (node, inl e)
                 | inr elt => (set_args node [elt], inr (Continue true))
                 end
            else (node, inr ReturnNone)
        | inr _ => (node, inr (Continue unwrapped_tuple))
        end
  | _ => (node, inr (Continue unwrapped_tuple))
  end.

(** [for node in fx_g.graph.nodes: ...]: the nodes as the loop leaves them
    (it assigns to [node.args] in place, also before an early [return None]
    or a failed assertion), and how it ends. *)
Fixpoint for_nodes (ns : list Node) (unwrapped_tuple : bool) : list Node * Res Step :=
  match ns with
  | [] => ([], inr (Continue unwrapped_tuple))
  | node :: rest =>
      match visit node unwrapped_tuple with
      | (node', inr (Continue u)) =>
          let '(rest', r) := for_nodes rest u in (node' :: rest', r)
      | (node', r) => (node' :: rest, r)
      end
  end.

(** Everything the script takes from other packages. *)
Record Externals := {
  TSGraph : Type;                        (* what torch.jit.trace / script return *)
  Linalg : Type;                         (* what torch_mlir.compile returns *)
  Vmfb : Type;                           (* what iree_torch.compile_to_vmfb returns *)
  Loaded : Type;                         (* what iree_torch.load_vmfb returns *)
  ModelClass : Type;                     (* what load_model_by_name returns *)
  ModelObj : Type;                       (* an instance of the model class *)
  (* torch.fx: Graph.lint raises on a malformed graph *)
  graph_lint : Graph -> option exn;
  torch_jit_trace : GraphModule -> list PyVal -> Res TSGraph;
  torch_jit_script : GraphModule -> list PyVal -> Res TSGraph;
  torch_mlir_compile : TSGraph -> list PyVal -> Res Linalg;
  compile_to_vmfb : Linalg -> Res Vmfb;
  load_vmfb : Vmfb -> Res Loaded;
  loaded_forward : Loaded -> list PyVal -> Res PyVal;
  (* torchbenchmark *)
  load_model_by_name : string -> option ModelClass;
  Model_init : ModelClass -> string -> string -> bool -> Z -> Res ModelObj;
  (* time.time_ns() *)
  time_ns : M World Z;
  (* [with torchdynamo.optimize(compiler): model.invoke()] *)
  optimize_invoke :
    (positive -> list PyVal -> M World (list PyVal -> M World PyVal)) ->
    ModelObj -> M World unit
}.

(** The callable the compile adapter returns, and the compiler callback the
    capture scope calls. *)
Definition Forward : Type := list PyVal -> M World PyVal.
Definition Compiler : Type := positive -> list PyVal -> M World Forward.

Section Script.
Context (ext : Externals).

(** [fx_g.graph.lint()] *)
Definition lint (fx_g : positive) : M World unit :=
  gm <- deref fx_g ;;
  emit (CallLint fx_g) ;;;
  match graph_lint ext (graph gm) with
  | Some e => raise e
  | None => ret tt
  end.

(** [fx_g.recompile()] *)
Definition recompile (fx_g : positive) : M World unit :=
  emit (CallRecompile fx_g).

Definition _unwrap_single_tuple_return (fx_g : positive) : M World (option positive) :=
  gm <- deref fx_g ;;
  let '(ns, r) := for_nodes (nodes (graph gm)) false in
  assign fx_g {| graph := {| nodes := ns |} |} ;;;
  step <- lift r ;;
  match step with
  | ReturnNone => ret None
  | Continue unwrapped_tuple =>
      if negb unwrapped_tuple
      then ret None
      else
        lint fx_g ;;;
        recompile fx_g ;;;
        ret (Some fx_g)
  end.

(** The closure [forward] of [torch_mlir_compiler], with the two variables it
    captures. *)
Definition forward (loaded_module : Loaded ext) (was_unwrapped : bool) : Forward :=
  fun inputs =>
    result <- lift (loaded_forward ext loaded_module inputs) ;;
    let result := match result with VNone => VTuple [] | _ => result end in
    ret (if was_unwrapped then VTuple [result] else result).

Definition torch_mlir_compiler (fx_graph : positive) (example_inputs : list PyVal)
    (use_tracing : bool) : M World Forward :=
  fx_graph_unwrapped <- _unwrap_single_tuple_return fx_graph ;;
  let was_unwrapped := bool_decide (fx_graph_unwrapped <> None) in
  let fx_graph := match fx_graph_unwrapped with Some g => g | None => fx_graph end in
  let ts_compiler := if use_tracing then torch_jit_trace ext else torch_jit_script ext in
  gm <- deref fx_graph ;;
  ts_graph <- lift (ts_compiler gm example_inputs) ;;
  linalg_module <- lift (torch_mlir_compile ext ts_graph example_inputs) ;;
  compiled_module <- lift (compile_to_vmfb ext linalg_module) ;;
  loaded_module <- lift (load_vmfb ext compiled_module) ;;
  ret (forward loaded_module was_unwrapped).

Definition run (func : ModelObj ext) (num_iter : Z) (compiler : Compiler) : M World unit :=
  start_time <- time_ns ext ;;
  for_range (Z.to_nat num_iter) (optimize_invoke ext compiler func) ;;;
  end_time <- time_ns ext ;;
  emit (PrintFinished (end_time - start_time)).

(** The parsed command line. *)
Record Args := {
  model : string;
  train : bool;
  iters : Z;
  batchsize : Z;
  trace : bool;
  exit_on_error : bool
}.

(** The function [compiler] that [main] defines. *)
Definition compiler (args : Args) : Compiler :=
  fun graph inputs =>
    if exit_on_error args
    then try_except_Exception
           (torch_mlir_compiler graph inputs (trace args))
           (fun err => emit (PrintErr err) ;;; sys_exit 1)
    else torch_mlir_compiler graph inputs (trace args).

Definition main (args : Args) : M World unit :=
  match load_model_by_name ext (model args) with
  | None => emit (PrintModelNotFound (model args))
  | Some Model =>
      let test := if train args then "train" else "eval" in
      model_obj <- lift (Model_init ext Model "cpu" test false (batchsize args)) ;;
      emit (PrintRunning (model args)) ;;;
      run model_obj (iters args) (compiler args)
  end.

End Script.

End TorchBench.

(** ** torchscript_e2e_main.py *)

Module E2E.
Import Py Monad.
Local Open Scope py_scope.

Definition COMMON_TORCH_MLIR_LOWERING_XFAIL_SET : gset string :=
  {[ "MobilenetV3Module_basic";
     "QuantizedMLP_basic";
     "TableBatchEmbeddingModule_basic" ]}.

(** Tests that fail due to incomplete support for RNG. *)
Definition COMMON_RNG_XFAIL_SET : gset string :=
  {[ "DropoutTrainModule_basic";
     "UniformModule_basic";
     "UniformStaticModule_basic";
     "BernoulliModule_basic";
     "BernoulliZerosModule_basic";
     "BernoulliOnesModule_basic";
     "BernoulliFloatModule_basic";
     "BernoulliTensorModule_basic" ]}.

Definition DYLIB_XFAIL_SET : gset string :=
  COMMON_TORCH_MLIR_LOWERING_XFAIL_SET ∪ COMMON_RNG_XFAIL_SET.

Definition VMVX_XFAIL_SET : gset string :=
  COMMON_TORCH_MLIR_LOWERING_XFAIL_SET ∪ COMMON_RNG_XFAIL_SET.

(** [tuple(f(x) for x in xs)], [[f(x) for x in xs]]: the elements in order,
    up to the first one at which [f] raises. *)
Definition map_res {A B} (f : A -> Res B) : list A -> Res (list B) :=
  fix go (xs : list A) : Res (list B) :=
    match xs with
    | [] => inr []
    | x :: rest =>
        match f x with
        | inl e => inl e
        | inr y =>
            match go rest with
            | inl e => inl e
            | inr ys => inr (y :: ys)
            end
        end
    end.

(** [[x for x in xs if f(x)]]: the elements [f] accepts, in order; the
    comprehension raises what [f] raises first. *)
Fixpoint filter_res {A} (f : A -> Res bool) (xs : list A) : Res (list A) :=
  match xs with
  | [] => inr []
  | x :: rest =>
      match f x with
      | inl e => inl e
      | inr keep =>
          match filter_res f rest with
          | inl e => inl e
          | inr ys => inr (if keep then x :: ys else ys)
          end
      end
  end.

Section Convert.
(** [np.asarray] on the contents of a device array. *)
Context (np_asarray : ArrayData -> ArrayData).

Fixpoint recursively_convert_to_numpy (o : PyVal) : Res PyVal :=
  match o with
  | VDeviceArray a => inr (VNdarray (np_asarray a))
  | VTuple xs =>
      match map_res recursively_convert_to_numpy xs with
      | inl e => inl e
      | inr ys => inr (VTuple ys)
      end
  | VList xs =>
      match map_res recursively_convert_to_numpy xs with
      | inl e => inl e
      | inr ys => inr (VList ys)
      end
  | VDict items =>
      match map_res (fun kv : Key * PyVal =>
                       let '(k, v) := kv in
                       match recursively_convert_to_numpy v with
                       | inl e => inl e
                       | inr v' => inr (k, v')
                       end) items with
      | inl e => inl e
      | inr items' => inr (VDict items')
      end
  (* No-op cases. Explicitly enumerated to avoid things sneaking through. *)
  | VStr _ => inr o
  | VFloat _ => inr o
  | VInt _ | VBool _ => inr o
  | VNone | VNdarray _ | VObj _ _ => inl (Exception (UnexpectedPythonType o))
  end.

End Convert.

(** The choices of [--config]. *)
Inductive Config := dylib | vmvx.

(** The parsed command line. *)
Record Args := {
  config : Config;
  filter : string;
  verbose : bool
}.

Record IREELinalgOnTensorsBackend := { backend : string }.

Record LinalgOnTensorsBackendTestConfig := { test_backend : IREELinalgOnTensorsBackend }.

(** What [main] prints. *)
Inductive Output :=
| PrintNoMatch (filter : string)   (* f'ERROR: the provided filter {args.filter!r} does not match any tests' *)
| PrintAvailable                   (* 'The available tests are:' *)
| PrintTestName (unique_name : string)
| PrintReport (line : string).     (* a line of report_results *)

(** Everything [main] takes from torch_mlir_e2e_test and [re]. *)
Record Externals := {
  Test : Type;
  TestResult : Type;
  GLOBAL_TEST_REGISTRY : list Test;
  unique_name : Test -> string;
  (* whether [re.match(pattern, string)] is not None; [re.match] raises
     [re.error] on a pattern that does not compile *)
  re_match : string -> string -> Res bool;
  run_tests : list Test -> LinalgOnTensorsBackendTestConfig -> Res (list TestResult);
  (* the lines report_results prints, and the flag it returns or what it
     raises after them *)
  report_results : list TestResult -> gset string -> bool -> list string * Res bool
}.

Section Main.
Context (ext : Externals).

Definition print (o : Output) : M (list Output) unit :=
  modify (fun out => (out ++ [o])%list).

Definition main (args : Args) : M (list Output) unit :=
  tests <- lift (filter_res
                   (fun test => re_match ext (filter args) (unique_name ext test))
                   (GLOBAL_TEST_REGISTRY ext)) ;;
  (if (length tests =? 0)%nat
   then
     print (PrintNoMatch (filter args)) ;;;
     print PrintAvailable ;;;
     for_each (GLOBAL_TEST_REGISTRY ext) (fun test => print (PrintTestName (unique_name ext test))) ;;;
     sys_exit 1
   else ret tt) ;;;
  let '(iree_backend, xfail_set) :=
    match config args with
    | dylib => ({| backend := "dylib" |}, DYLIB_XFAIL_SET)
    | vmvx => ({| backend := "vmvx" |}, VMVX_XFAIL_SET)
    end in
  let config := {| test_backend := iree_backend |} in
  results <- lift (run_tests ext tests config) ;;
  let '(report, failed) := report_results ext results xfail_set (verbose args) in
  for_each report (fun line => print (PrintReport line)) ;;;
  failed <- lift failed ;;
  sys_exit (if failed then 1 else 0).

End Main.

End E2E.

(** ** The vocabulary of the properties *)

Module Props.
Import Py Monad Fx TorchBench.

(** Two nodes that differ at most in the arguments of an output node. *)
Definition same_but_output_args (n n' : Node) : Prop :=
  name n' = name n /\ op n' = op n /\ target n' = target n /\
  kwargs n' = kwargs n /\ (is_output n = false -> args n' = args n).

(** A world whose graph module at [fx_g] has the nodes [ns]. *)
Definition with_nodes (w : World) (fx_g : positive) (ns : list Node) : World :=
  {| heap := <[fx_g := {| graph := {| nodes := ns |} |}]> (heap w);
     events := events w |}.

Definition with_events (w : World) (es : list Event) : World :=
  {| heap := heap w; events := (events w ++ es)%list |}.






(** The leaves of a nested structure, left to right: everything that is not
    a tuple, a list or a dict. *)
Fixpoint leaves (v : PyVal) : list PyVal :=
  match v with
  | VTuple xs => List.flat_map leaves xs
  | VList xs => List.flat_map leaves xs
  | VDict items => List.flat_map (fun kv : Key * PyVal => leaves (snd kv)) items
  | _ => [v]
  end.

(** The leaf types the conversion names: a device array, a string, a float,
    an integer (a bool is one). *)
Definition recognized_leaf (v : PyVal) : bool :=
  match v with
  | VDeviceArray _ | VStr _ | VFloat _ | VInt _ | VBool _ => true
  | _ => false
  end.

(** [converted v v']: [v'] has the nesting of [v], tuple for tuple, list for
    list, dict for dict under the same keys, with a host array for every
    device array and every other leaf as it was. *)
Inductive converted (np_asarray : ArrayData -> ArrayData) : PyVal -> PyVal -> Prop :=
| converted_array a :
    converted np_asarray (VDeviceArray a) (VNdarray (np_asarray a))
| converted_tuple xs ys :
    Forall2 (converted np_asarray) xs ys -> converted np_asarray (VTuple xs) (VTuple ys)
| converted_list xs ys :
    Forall2 (converted np_asarray) xs ys -> converted np_asarray (VList xs) (VList ys)
| converted_dict items items' :
    Forall2 (fun kv kv' : Key * PyVal =>
               fst kv' = fst kv /\ converted np_asarray (snd kv) (snd kv'))
      items items' ->
    converted np_asarray (VDict items) (VDict items')
| converted_str s : converted np_asarray (VStr s) (VStr s)
| converted_float f : converted np_asarray (VFloat f) (VFloat f)
| converted_int z : converted np_asarray (VInt z) (VInt z)
| converted_bool b : converted np_asarray (VBool b) (VBool b).

(** What a call of the conversion on [v] may end with: a converted value,
    all leaves of [v] being recognized, or the exception that reports an
    unrecognized leaf of [v]. *)
Definition conversion_outcome (np_asarray : ArrayData -> ArrayData)
    (v : PyVal) (r : Res PyVal) : Prop :=
  match r with
  | inr v' => converted np_asarray v v' /\ forallb recognized_leaf (leaves v) = true
  | inl e =>
      exists o, In o (leaves v) /\ recognized_leaf o = false
                /\ e = Exception (UnexpectedPythonType o)
  end.

(** A failed test whose name is not in the expected-failure set. *)
Definition unexpected_failure {TestResult : Type} (result_name : TestResult -> string)
    (result_failed : TestResult -> bool) (xfail_set : gset string) (r : TestResult) : Prop :=
  result_failed r = true /\ result_name r ∉ xfail_set.

(** The tests the filter selects, the expected-failure set and the test
    configuration of a backend choice. *)
Definition selected (ext : E2E.Externals) (args : E2E.Args)
    : Res (list (E2E.Test ext)) :=
  E2E.filter_res
    (fun test => E2E.re_match ext (E2E.filter args) (E2E.unique_name ext test))
    (E2E.GLOBAL_TEST_REGISTRY ext).

Definition expected_failures (c : E2E.Config) : gset string :=
  match c with
  | E2E.dylib => E2E.DYLIB_XFAIL_SET
  | E2E.vmvx => E2E.VMVX_XFAIL_SET
  end.

Definition test_config (c : E2E.Config) : E2E.LinalgOnTensorsBackendTestConfig :=
  {| E2E.test_backend :=
       {| E2E.backend := match c with E2E.dylib => "dylib" | E2E.vmvx => "vmvx" end |} |}.

End Props.

(** ** Concrete environments and graphs *)

Module Examples.
Import Py Monad Fx TorchBench.
Local Open Scope py_scope.

(** A tensor, as far as the scripts can tell one from another. *)
Definition tensor (id : Z) : PyVal := VObj "Tensor" id.

(** An environment whose pipeline keeps the graph module through every
    stage; the loaded module answers with one tensor. [lowering_fails] makes
    [torch_mlir.compile] raise; the zoo has the one model "resnet18"; the
    capture scope hands the graph module at reference 1 to the compiler
    callback and calls what it returns. *)
Definition pipeline (lowering_fails : bool) : Externals :=
  {| TSGraph := GraphModule;
     Linalg := GraphModule;
     Vmfb := GraphModule;
     Loaded := GraphModule;
     ModelClass := unit;
     ModelObj := unit;
     graph_lint := fun _ => None;
     torch_jit_trace := fun gm _ => inr gm;
     torch_jit_script := fun gm _ => inr gm;
     torch_mlir_compile := fun ts _ =>
       if lowering_fails then inl (Exception (Text "unsupported op")) else inr ts;
     compile_to_vmfb := fun m => inr m;
     load_vmfb := fun m => inr m;
     loaded_forward := fun _ _ => inr (tensor 7);
     load_model_by_name := fun name => if String.eqb name "resnet18" then Some tt else None;
     Model_init := fun _ _ _ _ _ => inr tt;
     time_ns := ret 0;
     optimize_invoke := fun compiler _ =>
       fwd <- compiler 1%positive [tensor 0] ;;
       _ <- fwd [tensor 0] ;;
       ret tt |}.

Definition node_x : Node :=
  {| name := "x"; op := placeholder; target := "x"; args := []; kwargs := [] |}.

Definition node_add : Node :=
  {| name := "add"; op := call_function; target := "operator.add";
     args := [ANode "x"; AInt 1]; kwargs := [] |}.

Definition node_output (a : list Arg) : Node :=
  {| name := "output"; op := output; target := "output"; args := a; kwargs := [] |}.

(** [return (add,)], [return ((add,),)], [return (x, add)], [return add], and
    an output node with two top-level arguments. *)
Definition graph_of (a : list Arg) : GraphModule :=
  {| graph := {| nodes := [node_x; node_add; node_output a] |} |}.

Definition single_group : GraphModule := graph_of [ATuple [ANode "add"]].
Definition nested_group : GraphModule := graph_of [ATuple [ATuple [ANode "add"]]].
Definition pair_group : GraphModule := graph_of [ATuple [ANode "x"; ANode "add"]].
Definition bare_output : GraphModule := graph_of [ANode "add"].
Definition two_arguments : GraphModule := graph_of [ANode "x"; ANode "add"].

(** A world with one graph module, at reference 1, and nothing printed. *)
Definition world_of (gm : GraphModule) : World :=
  {| heap := {[ 1%positive := gm ]}; events := [] |}.

(** The world after the normalizer has rewritten the output of the example
    graph to [a] and validated and recompiled it. *)
Definition rewritten (w : World) (a : list Arg) : World :=
  Props.with_events (Props.with_nodes w 1 [node_x; node_add; node_output a])
    [CallLint 1; CallRecompile 1].

(** A registry of two tests, the second of them expected to fail; a filter
    selects the names it is a prefix of, and the pattern "+" does not
    compile; a test fails when it is in [failing]; the report flags a failed
    test outside the expected-failure set and, with [flag_passes], also a
    test of that set that passed. *)
Definition suite_with (flag_passes : bool) (failing : list string) : E2E.Externals :=
  {| E2E.Test := string;
     E2E.TestResult := string * bool;
     E2E.GLOBAL_TEST_REGISTRY := ["FooModule_basic"; "BernoulliModule_basic"];
     E2E.unique_name := fun test => test;
     E2E.re_match := fun pattern name =>
       if String.eqb pattern "+"
       then inl (Exception (Text "re.error: nothing to repeat at position 0"))
       else inr (String.prefix pattern name);
     E2E.run_tests := fun tests _ =>
       inr (map (fun test => (test, bool_decide (test ∈ failing))) tests);
     E2E.report_results := fun results xfail _ =>
       (map fst results,
        inr (existsb
               (fun r : string * bool =>
                  (snd r && negb (bool_decide (fst r ∈ xfail)))
                  || (flag_passes && negb (snd r) && bool_decide (fst r ∈ xfail)))
               results)) |}.

Definition suite (failing : list string) : E2E.Externals := suite_with false failing.

(** [--config dylib --filter Bernoulli] *)
Definition bernoulli_only : E2E.Args :=
  {| E2E.config := E2E.dylib; E2E.filter := "Bernoulli"; E2E.verbose := false |}.

Definition array_0 : ArrayData := {| dtype := "f32"; shape := [2]; elems := [0; 1] |}.

(** [(DeviceArray, [1, "a"], {"k": 2.0})], and the same with [None] in the
    list. *)
Definition nested_result : PyVal :=
  VTuple [VDeviceArray array_0; VList [VInt 1; VStr "a"];
          VDict [(KStr "k", VFloat (S754_finite false 1 1))]].

Definition nested_result_with_none : PyVal :=
  VTuple [VDeviceArray array_0; VList [VInt 1; VNone];
          VDict [(KStr "k", VObj "bytes" 0)]].

(** A command line for [model], with or without [--exit-on-error]. *)
Definition command_line (model : string) (exit_on_error : bool) : Args :=
  {| model := model; train := false; iters := 1; batchsize := 0;
     trace := false; exit_on_error := exit_on_error |}.

End Examples.

(** ** IREEInvoker of torchscript_e2e_main.py *)

Module IREE.
Import Py.

(** [self._iree_module]: the runtime module, subscripted by function name;
    the subscript raises for a name the module does not have. *)
Record IREEInvoker := {
  _iree_module : string -> Res (list PyVal -> Res PyVal)
}.

Section Invoke.
Context (np_asarray : ArrayData -> ArrayData).

(** The closure [invoke] that [__getattr__] defines, with the [self] and
    [function_name] it captures. *)
Definition invoke (self : IREEInvoker) (function_name : string)
    (args : list PyVal) : Res PyVal :=
  match _iree_module self function_name with
  | inl e => inl e
  | inr function =>
      match function args with
      | inl e => inl e
      | inr result => E2E.recursively_convert_to_numpy np_asarray result
      end
  end.

Definition __getattr__ (self : IREEInvoker) (function_name : string)
    : list PyVal -> Res PyVal :=
  invoke self function_name.

End Invoke.

End IREE.

(** ** Further vocabulary *)

Module Notions.
Import Py Monad Fx TorchBench Props.

(** The top-level arguments of an output node at which the loop of the
    normalizer goes on: one argument that is no group, or a one-element
    group. *)
Definition passes (a : list Arg) : bool :=
  match a with
  | [x] => negb (is_tuple x) || is_single_tuple x
  | _ => false
  end.

Definition carries_single_tuple (a : list Arg) : bool :=
  match a with
  | [ATuple [_]] => true
  | _ => false
  end.

(** Whether a graph is one the normalizer rewrites. *)
Definition unwraps (ns : list Node) : bool :=
  forallb passes (output_args ns) && existsb carries_single_tuple (output_args ns).

(** The top-level arguments of an output node after a loop that ran to its
    end. *)
Definition unwrap_args (a : list Arg) : list Arg :=
  match a with
  | [ATuple [e]] => [e]
  | _ => a
  end.

(** [e] inside [k] one-element groups. *)
Fixpoint wrap (k : nat) (e : Arg) : Arg :=
  match k with
  | O => e
  | S k' => ATuple [wrap k' e]
  end.

(** [k] calls of the normalizer in a row, each of which returns a graph. *)
Fixpoint unwrap_times (ext : Externals) (fx_g : positive) (k : nat) (w : World)
    : option World :=
  match k with
  | O => Some w
  | S k' =>
      match _unwrap_single_tuple_return ext fx_g w with
      | (inr (Some _), w1) => unwrap_times ext fx_g k' w1
      | _ => None
      end
  end.

(** The four stages of [torch_mlir_compiler] after the normalizer, from the
    graph module to the loaded module. *)
Definition load_graph (ext : Externals) (use_tracing : bool) (gm : GraphModule)
    (example_inputs : list PyVal) : Res (Loaded ext) :=
  match (if use_tracing then torch_jit_trace ext else torch_jit_script ext)
          gm example_inputs with
  | inl e => inl e
  | inr ts_graph =>
      match torch_mlir_compile ext ts_graph example_inputs with
      | inl e => inl e
      | inr linalg_module =>
          match compile_to_vmfb ext linalg_module with
          | inl e => inl e
          | inr compiled_module => load_vmfb ext compiled_module
          end
      end
  end.

(** What the compile adapter returns once the normalizer is through. *)
Definition adapter_result (ext : Externals) (use_tracing : bool) (gm : GraphModule)
    (example_inputs : list PyVal) (was_unwrapped : bool) : Res Forward :=
  match load_graph ext use_tracing gm example_inputs with
  | inl e => inl e
  | inr loaded_module => inr (forward ext loaded_module was_unwrapped)
  end.

(** Leaves by kind. *)
Definition scalar_leaf (v : PyVal) : bool :=
  match v with
  | VStr _ | VFloat _ | VInt _ | VBool _ => true
  | _ => false
  end.

Definition is_device_array (v : PyVal) : bool :=
  match v with
  | VDeviceArray _ => true
  | _ => false
  end.

Definition unrecognized_leaf (v : PyVal) : bool := negb (recognized_leaf v).

(** What a call of the conversion on [v] ends with, by the first
    unrecognized leaf of [v]. *)
Definition first_outcome (v : PyVal) (r : Res PyVal) : Prop :=
  match r with
  | inr _ => find unrecognized_leaf (leaves v) = None
  | inl e =>
      exists o, find unrecognized_leaf (leaves v) = Some o
                /\ e = Exception (UnexpectedPythonType o)
  end.

(** A leaf after the conversion. *)
Definition to_host (np_asarray : ArrayData -> ArrayData) (v : PyVal) : PyVal :=
  match v with
  | VDeviceArray a => VNdarray (np_asarray a)
  | _ => v
  end.

End Notions.

(** ** Further environments and graphs *)

Module MoreExamples.
Import Py Monad Fx TorchBench Examples.

(** The environment [pipeline false] with a [lint] that rejects every
    graph. *)
Definition rejecting : Externals :=
  let p := pipeline false in
  {| TSGraph := TSGraph p; Linalg := Linalg p; Vmfb := Vmfb p; Loaded := Loaded p;
     ModelClass := ModelClass p; ModelObj := ModelObj p;
     graph_lint := fun _ => Some (Exception (Text "malformed graph"));
     torch_jit_trace := torch_jit_trace p;
     torch_jit_script := torch_jit_script p;
     torch_mlir_compile := torch_mlir_compile p;
     compile_to_vmfb := compile_to_vmfb p;
     load_vmfb := load_vmfb p;
     loaded_forward := loaded_forward p;
     load_model_by_name := load_model_by_name p;
     Model_init := Model_init p;
     time_ns := time_ns p;
     optimize_invoke := optimize_invoke p |}.

(** A graph with two output nodes: [return (add,)] and [return (x, add)]. *)
Definition two_outputs : GraphModule :=
  {| graph := {| nodes := [node_x; node_add; node_output [ATuple [ANode "add"]];
                           node_output [ATuple [ANode "x"; ANode "add"]]] |} |}.

(** [return ()] *)
Definition empty_group : GraphModule := graph_of [ATuple []].

(** [return (((add,),),)] *)
Definition triple_group : GraphModule :=
  graph_of [ATuple [ATuple [ATuple [ANode "add"]]]].

(** A runtime module with two functions: [forward] returns a device array
    and a float in a tuple, [init] returns nothing. *)
Definition runtime_module : IREE.IREEInvoker :=
  {| IREE._iree_module := fun function_name =>
       if String.eqb function_name "forward"
       then inr (fun _ => inr (VTuple [VDeviceArray array_0;
                                       VFloat (S754_finite false 1 1)]))
       else if String.eqb function_name "init"
       then inr (fun _ => inr VNone)
       else inl (Exception (Text "KeyError")) |}.

(** [nested_result] after the conversion with the identity for
    [np.asarray]. *)
Definition nested_result_on_host : PyVal :=
  VTuple [VNdarray array_0; VList [VInt 1; VStr "a"];
          VDict [(KStr "k", VFloat (S754_finite false 1 1))]].


(** [--config vmvx --filter NoSuchTest] *)
Definition no_such_test : E2E.Args :=
  {| E2E.config := E2E.vmvx; E2E.filter := "NoSuchTest"; E2E.verbose := false |}.

(** [[1, ("a", 2.0)]] *)
Definition scalars_only : PyVal :=
  VList [VInt 1; VTuple [VStr "a"; VFloat (S754_finite false 1 1)]].

End MoreExamples.

(** ** Properties of the output normalizer *)

Module Normalizer.
Import Py Monad Fx TorchBench Props.

Lemma arg_in_own_tuple (e : Arg) : ATuple [e] <> e.
Proof.
  intros H. apply (f_equal arg_size) in H. simpl in H. lia.
Qed.

Lemma set_args_changes (node : Node) (e : Arg) :
  args node = [ATuple [e]] -> set_args node [e] <> node.
Proof.
  intros Ha H. apply (f_equal args) in H. simpl in H.
  rewrite Ha in H. inversion H as [H']. symmetry in H'. by apply arg_in_own_tuple in H'.
Qed.

(** The four ways the loop body can go, read off the node. *)
Lemma visit_not_output node u :
  is_output node = false -> visit node u = (node, inr (Continue u)).
Proof.
  unfold is_output, visit. by destruct (op node).
Qed.

Lemma visit_bad_arity node u :
  is_output node = true -> length (args node) <> 1%nat ->
  visit node u = (node, inl (AssertionError "Output node must have a single argument")).
Proof.
  unfold is_output, visit. destruct (op node); try done. intros _ Hlen.
  destruct (Nat.eqb_spec (length (args node)) 1); [done|]. reflexivity.
Qed.

Lemma visit_single_tuple node u e :
  is_output node = true -> args node = [ATuple [e]] ->
  visit node u = (set_args node [e], inr (Continue true)).
Proof.
  unfold is_output, visit. destruct (op node); try done. intros _ ->. reflexivity.
Qed.

Lemma visit_other_tuple node u elts :
  is_output node = true -> args node = [ATuple elts] -> length elts <> 1%nat ->
  visit node u = (node, inr ReturnNone).
Proof.
  unfold is_output, visit. destruct (op node); try done. intros _ -> Hlen. simpl.
  destruct (Nat.eqb_spec (length elts) 1); [done|]. reflexivity.
Qed.

Lemma visit_bare node u a :
  is_output node = true -> args node = [a] -> is_tuple a = false ->
  visit node u = (node, inr (Continue u)).
Proof.
  unfold is_output, visit. destruct (op node); try done. intros _ -> Ha. simpl.
  by destruct a.
Qed.

(** Every node falls under one of them. *)
Lemma visit_cases node u :
  (visit node u = (node, inr (Continue u))
   /\ (is_output node = false \/ exists a, args node = [a] /\ is_tuple a = false))
  \/ (visit node u = (node, inl (AssertionError "Output node must have a single argument"))
      /\ is_output node = true /\ length (args node) <> 1%nat)
  \/ (exists e, visit node u = (set_args node [e], inr (Continue true))
      /\ is_output node = true /\ args node = [ATuple [e]])
  \/ (visit node u = (node, inr ReturnNone)
      /\ is_output node = true
      /\ exists elts, args node = [ATuple elts] /\ length elts <> 1%nat).
Proof.
  destruct (is_output node) eqn:Hout.
  2:{ left. split; [by apply visit_not_output | by left]. }
  destruct (args node) as [|a [|b l]] eqn:Ha.
  - right; left. split; [|done]. apply visit_bad_arity; [done|]. by rewrite Ha.
  - destruct (is_tuple a) eqn:Ht.
    + destruct a as [|elts| | | | | | |]; try done.
      destruct elts as [|e [|e' l]].
      * do 3 right. split; [|split; [done|]]; [|by exists []].
        by apply (visit_other_tuple _ _ []).
      * right; right; left. exists e. split; [|done]. by apply visit_single_tuple.
      * do 3 right. split; [|split; [done|]]; [|by exists (e :: e' :: l)].
        by apply (visit_other_tuple _ _ (e :: e' :: l)).
    + left. split; [|right; by exists a]. by apply (visit_bare _ _ a).
  - right; left. split; [|done]. apply visit_bad_arity; [done|]. rewrite Ha. simpl. lia.
Qed.

Lemma set_args_same_but_output_args node e :
  is_output node = true -> same_but_output_args node (set_args node [e]).
Proof. intros H. repeat split; simpl; try done. rewrite H. done. Qed.

Lemma same_but_output_args_refl node : same_but_output_args node node.
Proof. by repeat split. Qed.

Lemma output_args_cons_output node ns :
  is_output node = true -> output_args (node :: ns) = args node :: output_args ns.
Proof. intros H. unfold output_args. simpl. by rewrite H. Qed.

Lemma output_args_cons_other node ns :
  is_output node = false -> output_args (node :: ns) = output_args ns.
Proof. intros H. unfold output_args. simpl. by rewrite H. Qed.

(** *** The loop over the nodes *)

(** The loop touches nothing but the arguments of output nodes. *)
Lemma for_nodes_frame ns : forall u ns' r,
  for_nodes ns u = (ns', r) -> Forall2 same_but_output_args ns ns'.
Proof.
  induction ns as [|node ns IH]; intros u ns' r; simpl.
  - intros [= <- _]. constructor.
  - destruct (visit_cases node u) as [[-> _]|[[-> _]|[(e & -> & Hout & _)|[-> _]]]].
    + destruct (for_nodes ns u) as [rest' r'] eqn:Hrest. intros [= <- _].
      constructor; [apply same_but_output_args_refl | by eapply IH].
    + intros [= <- _]. constructor; [apply same_but_output_args_refl|].
      apply Forall2_same_length_lookup_2; [done|]. intros i x y ? ?. simplify_eq.
      apply same_but_output_args_refl.
    + destruct (for_nodes ns true) as [rest' r'] eqn:Hrest. intros [= <- _].
      constructor; [by apply set_args_same_but_output_args | by eapply IH].
    + intros [= <- _]. constructor; [apply same_but_output_args_refl|].
      apply Forall2_same_length_lookup_2; [done|]. intros i x y ? ?. simplify_eq.
      apply same_but_output_args_refl.
Qed.

(** Every output node carries a one-element group: each is rewritten to
    carry the sole element, and the loop runs to its end. *)
Lemma for_nodes_single_tuples ns : forall es u,
  output_args ns = map (fun e => [ATuple [e]]) es ->
  exists ns',
    for_nodes ns u = (ns', inr (Continue (match es with [] => u | _ => true end)))
    /\ output_args ns' = map (fun e => [e]) es.
Proof.
  induction ns as [|node ns IH]; intros es u Hargs.
  - destruct es; [|done]. by exists [].
  - destruct (is_output node) eqn:Hout.
    + rewrite output_args_cons_output in Hargs by done.
      destruct es as [|e es]; [done|]. simpl in Hargs. injection Hargs as Hnode Hrest.
      destruct (IH es true Hrest) as (rest' & Hloop & Hout').
      exists (set_args node [e] :: rest'). simpl.
      rewrite (visit_single_tuple node u e Hout Hnode), Hloop. split.
      * by destruct es.
      * rewrite output_args_cons_output by done. simpl. by rewrite Hout'.
    + rewrite output_args_cons_other in Hargs by done.
      destruct (IH es u Hargs) as (rest' & Hloop & Hout').
      exists (node :: rest'). simpl.
      rewrite (visit_not_output node u Hout), Hloop. split; [done|].
      by rewrite output_args_cons_other.
Qed.

(** The first output node carries a group that has not exactly one element:
    the loop returns at it and has changed nothing. *)
Lemma for_nodes_other_tuple ns : forall u elts rest,
  output_args ns = [ATuple elts] :: rest -> length elts <> 1%nat ->
  for_nodes ns u = (ns, inr ReturnNone).
Proof.
  induction ns as [|node ns IH]; intros u elts rest Hargs Hlen; [done|].
  destruct (is_output node) eqn:Hout.
  - rewrite output_args_cons_output in Hargs by done. injection Hargs as Hnode _.
    simpl. by rewrite (visit_other_tuple node u elts Hout Hnode Hlen).
  - rewrite output_args_cons_other in Hargs by done.
    simpl. by rewrite (visit_not_output node u Hout), (IH u elts rest Hargs Hlen).
Qed.

(** The first output node has not exactly one top-level argument: the
    assertion fails at it, and nothing has changed. *)
Lemma for_nodes_bad_arity ns : forall u a rest,
  output_args ns = a :: rest -> length a <> 1%nat ->
  for_nodes ns u
  = (ns, inl (AssertionError "Output node must have a single argument")).
Proof.
  induction ns as [|node ns IH]; intros u a rest Hargs Hlen; [done|].
  destruct (is_output node) eqn:Hout.
  - rewrite output_args_cons_output in Hargs by done. injection Hargs as Hnode _.
    subst a. simpl. by rewrite (visit_bad_arity node u Hout Hlen).
  - rewrite output_args_cons_other in Hargs by done.
    simpl. by rewrite (visit_not_output node u Hout), (IH u a rest Hargs Hlen).
Qed.

(** No output node carries a one-element group: the loop changes nothing,
    and ends as it began or by the early return. *)
Lemma for_nodes_no_single_tuple ns : forall u,
  Forall (fun a => exists x, a = [x] /\ is_single_tuple x = false) (output_args ns) ->
  exists s, for_nodes ns u = (ns, inr s) /\ (s = ReturnNone \/ s = Continue u).
Proof.
  induction ns as [|node ns IH]; intros u Hall.
  - exists (Continue u). by split; [|right].
  - destruct (is_output node) eqn:Hout.
    + rewrite output_args_cons_output in Hall by done.
      apply Forall_cons in Hall as [(x & Hx & Hns) Hall].
      destruct (is_tuple x) eqn:Ht.
      * destruct x as [|elts| | | | | | |]; try done.
        exists ReturnNone. split; [|by left]. simpl.
        rewrite (visit_other_tuple node u elts Hout Hx); [done|].
        destruct elts as [|? [|? ?]]; simpl; try done.
      * destruct (IH u Hall) as (s & Hloop & Hs). exists s. split; [|done].
        simpl. by rewrite (visit_bare node u x Hout Hx Ht), Hloop.
    + rewrite output_args_cons_other in Hall by done.
      destruct (IH u Hall) as (s & Hloop & Hs). exists s. split; [|done].
      simpl. by rewrite (visit_not_output node u Hout), Hloop.
Qed.

(** Every output node carries one bare argument: the loop runs to its end
    and changes nothing. *)
Lemma for_nodes_bare ns : forall u,
  Forall (fun a => exists x, a = [x] /\ is_tuple x = false) (output_args ns) ->
  for_nodes ns u = (ns, inr (Continue u)).
Proof.
  induction ns as [|node ns IH]; intros u Hall; [done|].
  destruct (is_output node) eqn:Hout.
  - rewrite output_args_cons_output in Hall by done.
    apply Forall_cons in Hall as [(x & Hx & Ht) Hall].
    simpl. by rewrite (visit_bare node u x Hout Hx Ht), (IH u Hall).
  - rewrite output_args_cons_other in Hall by done.
    simpl. by rewrite (visit_not_output node u Hout), (IH u Hall).
Qed.

(** Every output node has exactly one top-level argument: no assertion
    fails, the loop ends by itself or by the early return. *)
Lemma for_nodes_arity_ok ns : forall u,
  Forall (fun a => length a = 1%nat) (output_args ns) ->
  exists ns' s, for_nodes ns u = (ns', inr s).
Proof.
  induction ns as [|node ns IH]; intros u Hall.
  - by exists [], (Continue u).
  - simpl.
    destruct (visit_cases node u) as [[-> _]|[[_ [Hout Hlen]]|[(e & -> & _ & _)|[-> _]]]].
    + assert (Forall (fun a => length a = 1%nat) (output_args ns)) as Hall'.
      { destruct (is_output node) eqn:Hout.
        - rewrite output_args_cons_output in Hall by done. by apply Forall_cons in Hall as [_ ?].
        - by rewrite output_args_cons_other in Hall. }
      destruct (IH u Hall') as (rest' & s & ->). by exists (node :: rest'), s.
    + rewrite output_args_cons_output in Hall by done. by apply Forall_cons in Hall as [? _].
    + assert (Forall (fun a => length a = 1%nat) (output_args ns)) as Hall'.
      { destruct (is_output node) eqn:Hout.
        - rewrite output_args_cons_output in Hall by done. by apply Forall_cons in Hall as [_ ?].
        - by rewrite output_args_cons_other in Hall. }
      destruct (IH true Hall') as (rest' & s & ->). by exists (set_args node [e] :: rest'), s.
    + by exists (node :: ns), ReturnNone.
Qed.

(** A loop that runs to its end either changed nothing and kept the flag,
    or changed the graph and set the flag. *)
Lemma for_nodes_completed ns : forall u ns' u',
  for_nodes ns u = (ns', inr (Continue u')) ->
  (ns' = ns /\ u' = u) \/ (ns' <> ns /\ u' = true).
Proof.
  induction ns as [|node ns IH]; intros u ns' u'; simpl.
  - intros [= <- <-]. by left.
  - destruct (visit_cases node u) as [[-> _]|[[-> _]|[(e & -> & Hout & Hargs)|[-> _]]]];
      try done.
    + destruct (for_nodes ns u) as [rest' r'] eqn:Hrest. intros [= <- ->].
      destruct (IH _ _ _ Hrest) as [[-> ->]|[Hne ->]]; [by left|right].
      split; [|done]. by intros [= ?].
    + destruct (for_nodes ns true) as [rest' r'] eqn:Hrest. intros [= <- ->].
      right. assert (u' = true) as ->.
      { by destruct (IH _ _ _ Hrest) as [[_ ->]|[_ ->]]. }
      split; [|done]. intros [= Hnode _]. by apply set_args_changes in Hnode.
Qed.

(** With at most one output node, an early return has changed nothing. *)
Lemma for_nodes_early_return ns : forall u ns',
  (length (output_args ns) <= 1)%nat ->
  for_nodes ns u = (ns', inr ReturnNone) -> ns' = ns.
Proof.
  induction ns as [|node ns IH]; intros u ns' Hone; simpl; [done|].
  destruct (is_output node) eqn:Hout.
  - rewrite output_args_cons_output in Hone by done. simpl in Hone.
    assert (output_args ns = []) as Hnil by (destruct (output_args ns); [done|simpl in Hone; lia]).
    assert (forall v, for_nodes ns v = (ns, inr (Continue v))) as Hrest.
    { intros v. apply for_nodes_bare. rewrite Hnil. constructor. }
    destruct (visit_cases node u) as [[-> _]|[[-> _]|[(e & -> & _ & _)|[-> _]]]];
      rewrite ?Hrest; try done. by intros [= <-].
  - rewrite output_args_cons_other in Hone by done.
    rewrite (visit_not_output node u Hout).
    destruct (for_nodes ns u) as [rest' r'] eqn:Hrest. intros [= <- ->].
    f_equal. by eapply IH.
Qed.

(** *** The normalizer on the store *)

Lemma with_nodes_id w fx_g gm :
  heap w !! fx_g = Some gm -> with_nodes w fx_g (nodes (graph gm)) = w.
Proof.
  intros Hgm. destruct w as [h ev], gm as [[ns]]. unfold with_nodes. simpl in *.
  by rewrite insert_id.
Qed.

(** What a call does, in terms of what the loop does. *)
Lemma unwrap_run ext w fx_g gm :
  heap w !! fx_g = Some gm ->
  _unwrap_single_tuple_return ext fx_g w =
    let '(ns, r) := for_nodes (nodes (graph gm)) false in
    let w1 := with_nodes w fx_g ns in
    match r with
    | inl e => (inl e, w1)
    | inr ReturnNone | inr (Continue false) => (inr None, w1)
    | inr (Continue true) =>
        match graph_lint ext {| nodes := ns |} with
        | Some e => (inl e, with_events w1 [CallLint fx_g])
        | None => (inr (Some fx_g), with_events w1 [CallLint fx_g; CallRecompile fx_g])
        end
    end.
Proof.
  intros Hgm. unfold _unwrap_single_tuple_return, bind at 1, deref. rewrite Hgm.
  destruct (for_nodes (nodes (graph gm)) false) as [ns r]. simpl.
  destruct r as [e|[[|]|]]; try reflexivity.
  unfold bind, assign, modify, lift, lint, deref, recompile, emit, modify, bind. simpl.
  rewrite lookup_insert_eq. simpl.
  destruct (graph_lint ext {| nodes := ns |}); unfold with_events, with_nodes; simpl;
    [reflexivity|]. by rewrite <- app_assoc.
Qed.

(** C2. For every graph whose output nodes each carry a one-element group
    (in particular the graph with one output node), the normalizer returns
    the graph module it was given, rewritten: every output node now carries
    the sole element of its group and nothing else has changed. The external
    validation [lint] runs on the rewritten graph and is taken to accept it. *)
Theorem unwrap_single_group ext w fx_g gm es :
  heap w !! fx_g = Some gm ->
  es <> [] ->
  output_args (nodes (graph gm)) = map (fun e => [ATuple [e]]) es ->
  exists ns',
    Forall2 same_but_output_args (nodes (graph gm)) ns'
    /\ output_args ns' = map (fun e => [e]) es
    /\ (graph_lint ext {| nodes := ns' |} = None ->
        _unwrap_single_tuple_return ext fx_g w
        = (inr (Some fx_g),
           with_events (with_nodes w fx_g ns') [CallLint fx_g; CallRecompile fx_g])).
Proof.
  intros Hgm Hes Hargs.
  destruct (for_nodes_single_tuples _ es false Hargs) as (ns' & Hloop & Hout).
  exists ns'. split; [by eapply for_nodes_frame|]. split; [done|]. intros Hlint.
  rewrite (unwrap_run ext w fx_g gm Hgm), Hloop. destruct es; [done|]. simpl.
  by rewrite Hlint.
Qed.

(** C3. For every graph whose (first) output node carries a group of two or
    more elements, the normalizer returns [None] and leaves the world as it
    was: no node is modified, and neither [lint] nor [recompile] is called. *)
Theorem multi_group_no_rewrite ext w fx_g gm elts rest :
  heap w !! fx_g = Some gm ->
  output_args (nodes (graph gm)) = [ATuple elts] :: rest ->
  (2 <= length elts)%nat ->
  _unwrap_single_tuple_return ext fx_g w = (inr None, w).
Proof.
  intros Hgm Hargs Hlen.
  rewrite (unwrap_run ext w fx_g gm Hgm).
  rewrite (for_nodes_other_tuple _ false elts rest Hargs) by lia. simpl.
  by rewrite with_nodes_id.
Qed.

(** C10. On a graph whose output nodes carry one-element groups the
    normalizer rewrites in place: with a [lint] that accepts, it returns the
    reference it was given, the object behind that reference has been
    overwritten (the arguments of the output nodes are the sole elements, and
    the graph is no longer the one the caller passed), and [lint] and
    [recompile] have been called on it. Whenever it returns a graph module at
    all, this is what has happened. When it returns [None] on a graph with at
    most one output node, the world is as it was. *)
Theorem rewrite_is_in_place ext w fx_g gm :
  heap w !! fx_g = Some gm ->
  (forall es,
      es <> [] ->
      output_args (nodes (graph gm)) = map (fun e => [ATuple [e]]) es ->
      exists ns',
        output_args ns' = map (fun e => [e]) es
        /\ Forall2 same_but_output_args (nodes (graph gm)) ns'
        /\ ns' <> nodes (graph gm)
        /\ (graph_lint ext {| nodes := ns' |} = None ->
            exists w',
              _unwrap_single_tuple_return ext fx_g w = (inr (Some fx_g), w')
              /\ heap w' = <[fx_g := {| graph := {| nodes := ns' |} |}]> (heap w)
              /\ heap w' !! fx_g <> Some gm
              /\ events w' = (events w ++ [CallLint fx_g; CallRecompile fx_g])%list))
  /\ (forall r w',
      _unwrap_single_tuple_return ext fx_g w = (inr (Some r), w') ->
      r = fx_g
      /\ exists ns',
          w' = with_events (with_nodes w fx_g ns') [CallLint fx_g; CallRecompile fx_g]
          /\ Forall2 same_but_output_args (nodes (graph gm)) ns'
          /\ ns' <> nodes (graph gm)
          /\ heap w' !! fx_g <> Some gm)
  /\ (forall w',
      _unwrap_single_tuple_return ext fx_g w = (inr None, w') ->
      (length (output_args (nodes (graph gm))) <= 1)%nat ->
      w' = w).
Proof.
  intros Hgm. rewrite (unwrap_run ext w fx_g gm Hgm). split.
  { intros es Hes Hargs.
    destruct (for_nodes_single_tuples _ es false Hargs) as (ns' & Hloop & Hout).
    assert (ns' <> nodes (graph gm)) as Hne.
    { intros ->. rewrite Hargs in Hout. destruct es as [|e es]; [done|].
      simpl in Hout. injection Hout as He _. by apply arg_in_own_tuple in He. }
    exists ns'. split; [done|]. split; [by eapply for_nodes_frame|]. split; [done|].
    intros Hlint. rewrite Hloop. destruct es; [done|]. simpl. rewrite Hlint.
    eexists. split; [reflexivity|]. simpl. split; [done|]. split; [|done].
    rewrite lookup_insert_eq. intros [= <-]. by apply Hne. }
  destruct (for_nodes (nodes (graph gm)) false) as [ns r] eqn:Hloop. simpl. split.
  - intros r0 w' Hrun. destruct r as [e|[[|]|]]; try done.
    destruct (graph_lint ext {| nodes := ns |}); [done|]. injection Hrun as <- <-.
    split; [done|]. exists ns. split; [done|]. split; [by eapply for_nodes_frame|].
    destruct (for_nodes_completed _ _ _ _ Hloop) as [[_ ?]|[Hne _]]; [done|].
    split; [done|]. simpl. rewrite lookup_insert_eq. intros [= <-]. by apply Hne.
  - intros w' Hrun Hone. destruct r as [e|[[|]|]]; try done.
    + by destruct (graph_lint ext {| nodes := ns |}).
    + injection Hrun as <-.
      destruct (for_nodes_completed _ _ _ _ Hloop) as [[-> _]|[_ ?]]; [|done].
      by apply with_nodes_id.
    + injection Hrun as <-. apply for_nodes_early_return in Hloop as ->; [|done].
      by apply with_nodes_id.
Qed.

(** C4, as amended. For every graph whose output nodes each carry a bare
    value the normalizer returns [None] and leaves the world as it was; and
    applying it to the graph a successful normalization returned is such a
    no-op whenever none of the unwrapped elements is itself a one-element
    group. *)
Theorem normalizing_twice ext w fx_g gm :
  heap w !! fx_g = Some gm ->
  (Forall (fun a => exists x, a = [x] /\ is_tuple x = false)
     (output_args (nodes (graph gm))) ->
   _unwrap_single_tuple_return ext fx_g w = (inr None, w))
  /\ (forall es r w',
      output_args (nodes (graph gm)) = map (fun e => [ATuple [e]]) es ->
      Forall (fun e => is_single_tuple e = false) es ->
      _unwrap_single_tuple_return ext fx_g w = (inr (Some r), w') ->
      _unwrap_single_tuple_return ext r w' = (inr None, w')).
Proof.
  intros Hgm. split.
  - intros Hall. rewrite (unwrap_run ext w fx_g gm Hgm), (for_nodes_bare _ false Hall).
    simpl. by rewrite with_nodes_id.
  - intros es r w' Hargs Hes. rewrite (unwrap_run ext w fx_g gm Hgm).
    destruct (for_nodes_single_tuples _ es false Hargs) as (ns' & -> & Hout).
    destruct es as [|e es]; [done|]. simpl.
    destruct (graph_lint ext {| nodes := ns' |}); [done|]. intros [= <- <-].
    set (w1 := with_events _ _).
    assert (heap w1 !! fx_g = Some {| graph := {| nodes := ns' |} |}) as Hgm1.
    { subst w1. simpl. by rewrite lookup_insert_eq. }
    rewrite (unwrap_run ext w1 fx_g _ Hgm1). simpl.
    destruct (for_nodes_no_single_tuple ns' false) as (s & -> & Hs).
    { rewrite Hout. apply Forall_map. simpl.
      eapply Forall_impl; [exact Hes|]. intros x Hx. by exists x. }
    pose proof (with_nodes_id w1 fx_g _ Hgm1) as Hid. simpl in Hid. rewrite Hid.
    by destruct Hs as [->| ->].
Qed.

(** *** The theorems at concrete graphs *)

Import Examples.

Lemma unwrap_single_group_witness :
  exists ns',
    Forall2 same_but_output_args (nodes (graph single_group)) ns'
    /\ output_args ns' = [[ANode "add"]]
    /\ (graph_lint (pipeline false) {| nodes := ns' |} = None ->
        _unwrap_single_tuple_return (pipeline false) 1 (world_of single_group)
        = (inr (Some 1%positive),
           with_events (with_nodes (world_of single_group) 1 ns')
             [CallLint 1; CallRecompile 1])).
Proof.
  apply (unwrap_single_group (pipeline false) (world_of single_group) 1 single_group
           [ANode "add"]); [reflexivity | discriminate | reflexivity].
Defined.

Lemma multi_group_no_rewrite_witness :
  _unwrap_single_tuple_return (pipeline false) 1 (world_of pair_group)
  = (inr None, world_of pair_group).
Proof.
  apply (multi_group_no_rewrite (pipeline false) (world_of pair_group) 1 pair_group
           [ANode "x"; ANode "add"] []); [reflexivity | reflexivity | simpl; lia].
Defined.

Lemma rewrite_is_in_place_witness :
  (exists ns' w',
      _unwrap_single_tuple_return (pipeline false) 1 (world_of single_group)
      = (inr (Some 1%positive), w')
      /\ output_args ns' = [[ANode "add"]]
      /\ ns' <> nodes (graph single_group)
      /\ heap w'
         = <[1%positive := {| graph := {| nodes := ns' |} |}]> (heap (world_of single_group))
      /\ heap w' !! 1%positive <> Some single_group
      /\ events w'
         = (events (world_of single_group) ++ [CallLint 1; CallRecompile 1])%list)
  /\ (forall w',
      _unwrap_single_tuple_return (pipeline false) 1 (world_of pair_group) = (inr None, w') ->
      w' = world_of pair_group).
Proof.
  split.
  - destruct (proj1 (rewrite_is_in_place (pipeline false) (world_of single_group) 1
                       single_group eq_refl) [ANode "add"])
      as (ns' & Hout & _ & Hne & Hrun); [discriminate | reflexivity |].
    destruct (Hrun eq_refl) as (w' & Hw' & Hheap & Hold & Hev).
    exists ns', w'. repeat split; assumption.
  - intros w' Hrun.
    apply (proj2 (proj2 (rewrite_is_in_place (pipeline false) (world_of pair_group) 1
                           pair_group eq_refl)) w' Hrun).
    simpl. lia.
Defined.

Lemma normalizing_twice_witness :
  _unwrap_single_tuple_return (pipeline false) 1 (world_of bare_output)
  = (inr None, world_of bare_output)
  /\ _unwrap_single_tuple_return (pipeline false) 1
       (rewritten (world_of single_group) [ANode "add"])
     = (inr None, rewritten (world_of single_group) [ANode "add"]).
Proof.
  split.
  - apply (proj1 (normalizing_twice (pipeline false) (world_of bare_output) 1
                    bare_output eq_refl)).
    simpl. constructor; [|constructor]. by exists (ANode "add").
  - apply (proj2 (normalizing_twice (pipeline false) (world_of single_group) 1
                    single_group eq_refl) [ANode "add"] 1%positive).
    + reflexivity.
    + by repeat constructor.
    + vm_compute. reflexivity.
Defined.

(** C4, as stated, fails: the sole element of a one-element group can be a
    one-element group again. After [return ((add,),)] has been normalized to
    [return (add,)], the normalizer applies once more, and rewrites the graph
    to [return add]. *)
Lemma nested_group_unwraps_twice :
  ~ (forall r w',
        _unwrap_single_tuple_return (pipeline false) 1 (world_of nested_group)
        = (inr (Some r), w') ->
        _unwrap_single_tuple_return (pipeline false) r w' = (inr None, w')).
Proof.
  intros H.
  specialize (H 1%positive (rewritten (world_of nested_group) [ATuple [ANode "add"]])).
  assert (_unwrap_single_tuple_return (pipeline false) 1 (world_of nested_group)
          = (inr (Some 1%positive),
             rewritten (world_of nested_group) [ATuple [ANode "add"]])) as Hfirst
    by (vm_compute; reflexivity).
  specialize (H Hfirst). vm_compute in H. discriminate H.
Qed.

End Normalizer.

(** ** Properties of the compile adapter and of the benchmark driver *)

Module Adapter.
Import Py Monad Fx TorchBench Props.


(** What the closure does with what the loaded module returns. *)
Lemma forward_run ext (ld : Loaded ext) (b : bool) inputs w :
  forward ext ld b inputs w
  = (match loaded_forward ext ld inputs with
     | inl e => inl e
     | inr r0 =>
         let result := match r0 with VNone => VTuple [] | _ => r0 end in
         inr (if b then VTuple [result] else result)
     end, w).
Proof.
  unfold forward, bind, lift, ret. by destruct (loaded_forward ext ld inputs).
Qed.


(** An exception of the normalizer comes out of the compile adapter as it
    is. *)
Lemma torch_mlir_compiler_raises ext fx_graph example_inputs use_tracing w e w' :
  _unwrap_single_tuple_return ext fx_graph w = (inl e, w') ->
  torch_mlir_compiler ext fx_graph example_inputs use_tracing w = (inl e, w').
Proof.
  intros Hrun. unfold torch_mlir_compiler. unfold bind at 1. by rewrite Hrun.
Qed.

(** C5, as amended. When the (first) output node of the graph has not
    exactly one top-level argument, in particular when it has more than one,
    the normalizer raises the [AssertionError] instead of returning, and the
    compile adapter lets it through. The compiler callback of the driver lets
    it through as well, unless the exit-on-error flag is set: then it catches
    the error, prints it and raises [SystemExit(1)]. When every output node
    has exactly one top-level argument the assertion cannot fail: the
    normalizer returns, or raises what [lint] raised. *)
Theorem malformed_output_is_fatal ext w fx_g gm :
  heap w !! fx_g = Some gm ->
  (forall a rest,
      output_args (nodes (graph gm)) = a :: rest -> length a <> 1%nat ->
      let err := AssertionError "Output node must have a single argument" in
      _unwrap_single_tuple_return ext fx_g w = (inl err, w)
      /\ (forall inputs use_tracing,
          torch_mlir_compiler ext fx_g inputs use_tracing w = (inl err, w))
      /\ (forall args inputs,
          compiler ext args fx_g inputs w
          = if exit_on_error args
            then (inl (SystemExit 1), with_events w [PrintErr err])
            else (inl err, w)))
  /\ (Forall (fun a => length a = 1%nat) (output_args (nodes (graph gm))) ->
      exists o w',
        _unwrap_single_tuple_return ext fx_g w = (o, w')
        /\ match o with
           | inr _ => True
           | inl e => exists g, graph_lint ext g = Some e
           end).
Proof.
  intros Hgm. split.
  - intros a rest Hargs Hlen err.
    assert (_unwrap_single_tuple_return ext fx_g w = (inl err, w)) as Hrun.
    { rewrite (Normalizer.unwrap_run ext w fx_g gm Hgm).
      rewrite (Normalizer.for_nodes_bad_arity _ false a rest Hargs Hlen). simpl.
      by rewrite Normalizer.with_nodes_id. }
    split; [done|]. split.
    + intros inputs use_tracing. by apply torch_mlir_compiler_raises.
    + intros args inputs. unfold compiler, try_except_Exception.
      destruct (exit_on_error args);
        by rewrite (torch_mlir_compiler_raises ext fx_g inputs (trace args) w err w Hrun).
  - intros Hall. rewrite (Normalizer.unwrap_run ext w fx_g gm Hgm).
    destruct (Normalizer.for_nodes_arity_ok _ false Hall) as (ns' & s & ->). simpl.
    destruct s as [[|]|]; [|by eexists _, _..].
    destruct (graph_lint ext {| nodes := ns' |}) as [e|] eqn:Hlint.
    + eexists _, _. split; [done|]. by eexists.
    + by eexists _, _.
Qed.

(** C9, as amended. When the named model is not found, [main] prints that
    and returns, so the process ends with status 0. When the exit-on-error
    flag is set and the compile adapter raises an [Exception], the compiler
    callback prints it and raises [SystemExit(1)]; when the flag is not set
    the callback is the compile adapter. For a model that is found
    and built, the process ends the way the loop over the capture scopes
    ends: with the exception it raised (status 1 for [SystemExit(1)]), and
    with status 0 when it returned and the clock was read. *)
Theorem driver_exit_status ext args w :
  (load_model_by_name ext (model args) = None ->
   main ext args w = (inr tt, with_events w [PrintModelNotFound (model args)])
   /\ exit_status (main ext args w).1 = 0)
  /\ (forall fx_graph inputs e w0 w1,
      exit_on_error args = true ->
      torch_mlir_compiler ext fx_graph inputs (trace args) w0 = (inl e, w1) ->
      is_Exception e = true ->
      compiler ext args fx_graph inputs w0
      = (inl (SystemExit 1), with_events w1 [PrintErr e]))
  /\ (forall fx_graph inputs w0,
      exit_on_error args = false ->
      compiler ext args fx_graph inputs w0
      = torch_mlir_compiler ext fx_graph inputs (trace args) w0)
  /\ (forall Model m t0 w2 r w3,
      load_model_by_name ext (model args) = Some Model ->
      Model_init ext Model "cpu" (if train args then "train" else "eval") false
        (batchsize args) = inr m ->
      time_ns ext (with_events w [PrintRunning (model args)]) = (inr t0, w2) ->
      for_range (Z.to_nat (iters args)) (optimize_invoke ext (compiler ext args) m) w2
      = (r, w3) ->
      match r with
      | inl e =>
          main ext args w = (inl e, w3)
          /\ (e = SystemExit 1 -> exit_status (main ext args w).1 = 1)
      | inr _ =>
          forall t1 w4,
            time_ns ext w3 = (inr t1, w4) ->
            main ext args w = (inr tt, with_events w4 [PrintFinished (t1 - t0)])
            /\ exit_status (main ext args w).1 = 0
      end).
Proof.
  split; [|split; [|split]].
  - intros Hnone. unfold main. rewrite Hnone. done.
  - intros fx_graph inputs e w0 w1 Hflag Hc He.
    unfold compiler, try_except_Exception. by rewrite Hflag, Hc, He.
  - intros fx_graph inputs w0 Hflag. unfold compiler. by rewrite Hflag.
  - intros Model m t0 w2 r w3 Hfound Hinit Ht0 Hloop.
    assert (main ext args w
            = match r with
              | inl e => (inl e, w3)
              | inr _ =>
                  match time_ns ext w3 with
                  | (inr t1, w4) => (inr tt, with_events w4 [PrintFinished (t1 - t0)])
                  | (inl e, w4) => (inl e, w4)
                  end
              end) as Hmain.
    { unfold main. rewrite Hfound. unfold bind at 1, lift. rewrite Hinit.
      unfold bind at 1, emit, modify. unfold run, bind at 1.
      change {| heap := heap w; events := events w ++ [PrintRunning (model args)] |}
        with (with_events w [PrintRunning (model args)]).
      rewrite Ht0. unfold bind at 1. rewrite Hloop. destruct r as [e|[]]; [done|].
      unfold bind. by destruct (time_ns ext w3) as [[?|?] ?]. }
    rewrite Hmain. destruct r as [e|[]].
    + split; [done|]. by intros ->.
    + intros t1 w4 ->. done.
Qed.

(** *** The theorems at concrete inputs *)

Import Examples.

Lemma malformed_output_is_fatal_witness :
  (_unwrap_single_tuple_return (pipeline false) 1 (world_of two_arguments)
   = (inl (AssertionError "Output node must have a single argument"),
      world_of two_arguments)
   /\ (forall inputs use_tracing,
       torch_mlir_compiler (pipeline false) 1 inputs use_tracing (world_of two_arguments)
       = (inl (AssertionError "Output node must have a single argument"),
          world_of two_arguments))
   /\ (forall args inputs,
       compiler (pipeline false) args 1%positive inputs (world_of two_arguments)
       = if exit_on_error args
         then (inl (SystemExit 1),
               with_events (world_of two_arguments)
                 [PrintErr (AssertionError "Output node must have a single argument")])
         else (inl (AssertionError "Output node must have a single argument"),
               world_of two_arguments)))
  /\ exists o w',
      _unwrap_single_tuple_return (pipeline false) 1 (world_of bare_output) = (o, w')
      /\ match o with
         | inr _ => True
         | inl e => exists g, graph_lint (pipeline false) g = Some e
         end.
Proof.
  split.
  - apply (proj1 (malformed_output_is_fatal (pipeline false) (world_of two_arguments) 1
                    two_arguments eq_refl) [ANode "x"; ANode "add"] []);
      [reflexivity | simpl; lia].
  - apply (proj2 (malformed_output_is_fatal (pipeline false) (world_of bare_output) 1
                    bare_output eq_refl)).
    simpl. repeat constructor.
Defined.

(** C5, as stated, fails: the assertion error is caught. With
    [--exit-on-error], the compiler callback of the driver runs the
    normalizer inside [try ... except Exception]; on a graph whose output
    node has two top-level arguments it catches the [AssertionError], prints
    it, and raises [SystemExit(1)] in its place. *)
Lemma assertion_error_is_caught :
  compiler (pipeline false) (command_line "resnet18" true) 1%positive [tensor 0]
    (world_of two_arguments)
  = (inl (SystemExit 1),
     with_events (world_of two_arguments)
       [PrintErr (AssertionError "Output node must have a single argument")])
  /\ ~ (forall args,
         (compiler (pipeline false) args 1%positive [tensor 0] (world_of two_arguments)).1
         = inl (AssertionError "Output node must have a single argument")).
Proof.
  split; [reflexivity|].
  intros H. specialize (H (command_line "resnet18" true)). vm_compute in H. discriminate H.
Qed.


Lemma driver_exit_status_witness :
  (main (pipeline true) (command_line "no_such_model" true) (world_of single_group)
   = (inr tt, with_events (world_of single_group) [PrintModelNotFound "no_such_model"])
   /\ exit_status
        (main (pipeline true) (command_line "no_such_model" true)
           (world_of single_group)).1 = 0)
  /\ compiler (pipeline true) (command_line "resnet18" true) 1%positive [tensor 0]
       (world_of single_group)
     = (inl (SystemExit 1),
        with_events (rewritten (world_of single_group) [ANode "add"])
          [PrintErr (Exception (Text "unsupported op"))])
  /\ exit_status
       (main (pipeline true) (command_line "resnet18" true) (world_of single_group)).1 = 1
  /\ exit_status
       (main (pipeline false) (command_line "resnet18" true) (world_of single_group)).1 = 0.
Proof.
  split; [|split; [|split]].
  - apply (proj1 (driver_exit_status (pipeline true) (command_line "no_such_model" true)
                    (world_of single_group))).
    reflexivity.
  - apply (proj1 (proj2 (driver_exit_status (pipeline true) (command_line "resnet18" true)
                           (world_of single_group)))
             1%positive [tensor 0] (Exception (Text "unsupported op"))
             (world_of single_group) (rewritten (world_of single_group) [ANode "add"]));
      reflexivity.
  - apply (proj2 (proj2 (proj2 (driver_exit_status (pipeline true)
                                  (command_line "resnet18" true) (world_of single_group))))
             tt tt 0 _ (inl (SystemExit 1)) _ eq_refl eq_refl eq_refl eq_refl).
    reflexivity.
  - apply (proj2 (proj2 (proj2 (driver_exit_status (pipeline false)
                                  (command_line "resnet18" true) (world_of single_group))))
             tt tt 0 _ (inr tt) _ eq_refl eq_refl eq_refl eq_refl 0 _ eq_refl).
Defined.

(** C9, as stated, fails: for a model that the zoo does not have, [main]
    prints the message and returns, and the process ends with status 0,
    not 1. *)
Lemma unknown_model_exits_zero :
  ~ (load_model_by_name (pipeline false) (model (command_line "no_such_model" true)) = None ->
     exit_status
       (main (pipeline false) (command_line "no_such_model" true)
          (world_of single_group)).1 = 1).
Proof.
  intros H. specialize (H eq_refl). vm_compute in H. discriminate H.
Qed.

End Adapter.

(** ** Properties of the recursive conversion *)

Module Conversion.
Import Py Props.

Section WithAsarray.
Context (np_asarray : ArrayData -> ArrayData).

Local Abbreviation convert := (E2E.recursively_convert_to_numpy np_asarray).

Local Abbreviation outcome_ok := (conversion_outcome np_asarray).

(** The elements of a tuple or list, given the outcome at each of them. *)
Lemma map_res_outcome (xs : list PyVal) :
  Forall (fun x => outcome_ok x (convert x)) xs ->
  match E2E.map_res convert xs with
  | inr ys =>
      Forall2 (converted np_asarray) xs ys
      /\ forallb recognized_leaf (List.flat_map leaves xs) = true
  | inl e =>
      exists o, In o (List.flat_map leaves xs) /\ recognized_leaf o = false
                /\ e = Exception (UnexpectedPythonType o)
  end.
Proof.
  induction 1 as [|x xs Hx _ IH]; simpl; [by split|].
  unfold conversion_outcome in Hx. destruct (convert x) as [e|y].
  - destruct Hx as (o & Hin & Hrec & ->). exists o. split; [|done].
    apply in_or_app. by left.
  - destruct Hx as [Hconv Hleaves]. destruct (E2E.map_res convert xs) as [e|ys].
    + destruct IH as (o & Hin & Hrec & ->). exists o. split; [|done].
      apply in_or_app. by right.
    + destruct IH as [Hall Hleaves']. split; [by constructor|].
      rewrite forallb_app. by rewrite Hleaves, Hleaves'.
Qed.

(** The items of a dict, given the outcome at each value. *)
Lemma map_res_items_outcome (items : list (Key * PyVal)) :
  Forall (fun kv => outcome_ok (snd kv) (convert (snd kv))) items ->
  match E2E.map_res
          (fun kv : Key * PyVal =>
             let '(k, v) := kv in
             match convert v with
             | inl e => inl e
             | inr v' => inr (k, v')
             end) items with
  | inr items' =>
      Forall2 (fun kv kv' : Key * PyVal =>
                 fst kv' = fst kv /\ converted np_asarray (snd kv) (snd kv'))
        items items'
      /\ forallb recognized_leaf
           (List.flat_map (fun kv : Key * PyVal => leaves (snd kv)) items) = true
  | inl e =>
      exists o, In o (List.flat_map (fun kv : Key * PyVal => leaves (snd kv)) items)
                /\ recognized_leaf o = false
                /\ e = Exception (UnexpectedPythonType o)
  end.
Proof.
  induction 1 as [|[k v] items Hx _ IH]; simpl; [by split|].
  unfold conversion_outcome in Hx. simpl in Hx. destruct (convert v) as [e|v'].
  - destruct Hx as (o & Hin & Hrec & ->). exists o. split; [|done].
    apply in_or_app. by left.
  - destruct Hx as [Hconv Hleaves].
    destruct (E2E.map_res _ items) as [e|items'].
    + destruct IH as (o & Hin & Hrec & ->). exists o. split; [|done].
      apply in_or_app. by right.
    + destruct IH as [Hall Hleaves']. split; [by constructor|].
      rewrite forallb_app. by rewrite Hleaves, Hleaves'.
Qed.

Lemma convert_outcome (v : PyVal) : outcome_ok v (convert v).
Proof.
  induction v as [ |a|a|xs IH|xs IH|items IH|s|f|z|b|cls id] using PyVal_nested_ind;
    simpl; try (split; [constructor | reflexivity]).
  - exists VNone. split; [by left|done].
  - exists (VNdarray a). split; [by left|done].
  - pose proof (map_res_outcome xs IH) as H.
    destruct (E2E.map_res convert xs); simpl; [done|].
    destruct H. split; [by constructor|done].
  - pose proof (map_res_outcome xs IH) as H.
    destruct (E2E.map_res convert xs); simpl; [done|].
    destruct H. split; [by constructor|done].
  - pose proof (map_res_items_outcome items IH) as H.
    destruct (E2E.map_res _ items); simpl; [done|].
    destruct H. split; [by constructor|done].
  - exists (VObj cls id). split; [by left|done].
Qed.

(** [converted] keeps the number of leaves. *)
Lemma converted_leaves (v : PyVal) : forall v',
  converted np_asarray v v' -> length (leaves v') = length (leaves v).
Proof.
  induction v as [ |a|a|xs IH|xs IH|items IH|s|f|z|b|cls id] using PyVal_nested_ind;
    intros v' Hc; inversion Hc; subst; simpl; try reflexivity.
  - match goal with H : Forall2 _ xs _ |- _ =>
      clear Hc; revert IH; induction H as [|x y xs' ys' Hxy _ IH']; intros IH end;
      [done|]. simpl. rewrite !length_app.
    apply Forall_cons in IH as [IHx IHxs]. rewrite (IHx y Hxy). f_equal. by apply IH'.
  - match goal with H : Forall2 _ xs _ |- _ =>
      clear Hc; revert IH; induction H as [|x y xs' ys' Hxy _ IH']; intros IH end;
      [done|]. simpl. rewrite !length_app.
    apply Forall_cons in IH as [IHx IHxs]. rewrite (IHx y Hxy). f_equal. by apply IH'.
  - match goal with H : Forall2 _ items _ |- _ =>
      clear Hc; revert IH; induction H as [|x y xs' ys' [_ Hxy] _ IH']; intros IH end;
      [done|]. simpl. rewrite !length_app.
    apply Forall_cons in IH as [IHx IHxs]. rewrite (IHx _ Hxy). f_equal. by apply IH'.
Qed.

(** C6. For every nested structure of tuples, lists and dicts whose leaves
    are device arrays, strings, floats and integers, the conversion returns a
    structure of the same nesting and the same number of leaves, with a host
    array in place of every device array and every other leaf unchanged. *)
Theorem conversion_preserves_shape (v : PyVal) :
  forallb recognized_leaf (leaves v) = true ->
  exists v',
    convert v = inr v'
    /\ converted np_asarray v v'
    /\ length (leaves v') = length (leaves v).
Proof.
  intros Hleaves. pose proof (convert_outcome v) as H. unfold conversion_outcome in H.
  destruct (convert v) as [e|v'].
  - destruct H as (o & Hin & Hrec & _). rewrite forallb_forall in Hleaves.
    apply Hleaves in Hin. congruence.
  - destruct H as [Hc _]. exists v'. split; [done|]. split; [done|].
    by apply converted_leaves.
Qed.

(** C7. The conversion raises if and only if the structure has a leaf of a
    type it does not name; what it raises is the [Exception] that reports
    such a leaf. *)
Theorem conversion_raises_iff_unrecognized (v : PyVal) :
  ((exists e, convert v = inl e)
   <-> existsb (fun o => negb (recognized_leaf o)) (leaves v) = true)
  /\ (forall e, convert v = inl e ->
      exists o, In o (leaves v) /\ recognized_leaf o = false
                /\ e = Exception (UnexpectedPythonType o)).
Proof.
  pose proof (convert_outcome v) as H. unfold conversion_outcome in H. split; [split|].
  - intros [e He]. rewrite He in H. destruct H as (o & Hin & Hrec & _).
    apply existsb_exists. exists o. split; [done|]. by rewrite Hrec.
  - intros Hex. apply existsb_exists in Hex as (o & Hin & Hrec).
    destruct (convert v) as [e|v']; [by exists e|].
    destruct H as [_ Hall]. rewrite forallb_forall in Hall. apply Hall in Hin.
    rewrite Hin in Hrec. done.
  - intros e He. by rewrite He in H.
Qed.

End WithAsarray.

Import Examples.

Lemma conversion_preserves_shape_witness :
  exists v',
    E2E.recursively_convert_to_numpy (fun a => a) nested_result = inr v'
    /\ converted (fun a => a) nested_result v'
    /\ length (leaves v') = length (leaves nested_result).
Proof.
  apply (conversion_preserves_shape (fun a => a) nested_result). reflexivity.
Defined.

Lemma conversion_raises_iff_unrecognized_witness :
  exists o, In o (leaves nested_result_with_none) /\ recognized_leaf o = false
            /\ Exception (UnexpectedPythonType VNone) = Exception (UnexpectedPythonType o).
Proof.
  apply (proj2 (conversion_raises_iff_unrecognized (fun a => a) nested_result_with_none)
           (Exception (UnexpectedPythonType VNone))).
  reflexivity.
Defined.

End Conversion.

(** ** Properties of the test driver *)

Module TestDriver.
Import Py Monad Props.

Lemma for_each_print {A} (f : A -> E2E.Output) (xs : list A) : forall out,
  for_each xs (fun x => E2E.print (f x)) out = (inr tt, (out ++ map f xs)%list).
Proof.
  induction xs as [|x xs IH]; intros out; simpl.
  - unfold ret. by rewrite app_nil_r.
  - unfold bind, E2E.print, modify. rewrite IH. by rewrite <- app_assoc.
Qed.

(** What [main] prints and how it ends. *)
Lemma main_run ext args out :
  E2E.main ext args out
  = match selected ext args with
    | inl e => (inl e, out)
    | inr [] =>
        (inl (SystemExit 1),
         (out ++ [E2E.PrintNoMatch (E2E.filter args); E2E.PrintAvailable]
              ++ map (fun test => E2E.PrintTestName (E2E.unique_name ext test))
                   (E2E.GLOBAL_TEST_REGISTRY ext))%list)
    | inr tests =>
        match E2E.run_tests ext tests (test_config (E2E.config args)) with
        | inl e => (inl e, out)
        | inr results =>
            let '(report, failed) :=
              E2E.report_results ext results (expected_failures (E2E.config args))
                (E2E.verbose args) in
            (match failed with
             | inl e => inl e
             | inr failed => inl (SystemExit (if failed then 1 else 0))
             end,
             (out ++ map E2E.PrintReport report)%list)
        end
    end.
Proof.
  unfold E2E.main. fold (selected ext args). unfold bind at 1, lift.
  destruct (selected ext args) as [e|[|t tests]]; [done| |]; simpl.
  - unfold bind at 1. unfold bind at 1. unfold E2E.print at 1, modify.
    unfold bind at 1. unfold E2E.print at 1, modify.
    unfold bind at 1. rewrite for_each_print. unfold sys_exit, raise.
    by rewrite <- !app_assoc.
  - unfold bind at 1, ret. unfold test_config, expected_failures.
    destruct (E2E.config args); simpl; unfold bind at 1;
      destruct (E2E.run_tests ext _ _) as [e|results]; try done;
      destruct (E2E.report_results _ _ _ _) as [report failed];
      unfold bind; rewrite for_each_print; by destruct failed.
Qed.

(** C8, as amended. The driver exits with status 1 when the filter selects
    no test. When it selects some and they have run and been reported, the
    driver exits with the flag of the report: status 1 if the flag is set
    and 0 if not. For a report that sets the flag exactly when a test failed
    unexpectedly, that is status 1 if and only if some selected test failed
    unexpectedly, and in particular status 0 when the only selected test
    failed and its name is in the expected-failure set of the backend. *)
Theorem test_driver_exit_status ext (result_name : E2E.TestResult ext -> string)
    (result_failed : E2E.TestResult ext -> bool) args out :
  let xfail_set := expected_failures (E2E.config args) in
  (selected ext args = inr [] -> exit_status (E2E.main ext args out).1 = 1)
  /\ (forall tests results report failed,
      selected ext args = inr tests ->
      tests <> [] ->
      E2E.run_tests ext tests (test_config (E2E.config args)) = inr results ->
      E2E.report_results ext results xfail_set (E2E.verbose args) = (report, inr failed) ->
      E2E.main ext args out
      = (inl (SystemExit (if failed then 1 else 0)),
         (out ++ map E2E.PrintReport report)%list)
      /\ (exit_status (E2E.main ext args out).1 = 1 <-> failed = true)
      /\ (exit_status (E2E.main ext args out).1 = 0 <-> failed = false)
      /\ ((failed = true
           <-> Exists (unexpected_failure result_name result_failed xfail_set) results) ->
          (exit_status (E2E.main ext args out).1 = 1
           <-> Exists (unexpected_failure result_name result_failed xfail_set) results)
          /\ (forall t r,
              tests = [t] -> results = [r] ->
              result_name r = E2E.unique_name ext t ->
              result_failed r = true ->
              E2E.unique_name ext t ∈ xfail_set ->
              exit_status (E2E.main ext args out).1 = 0))).
Proof.
  intros xfail_set. split.
  - intros Hnone. rewrite main_run. by rewrite Hnone.
  - intros tests results report failed Hsel Hne Hrun Hreport.
    assert (E2E.main ext args out
            = (inl (SystemExit (if failed then 1 else 0)),
               (out ++ map E2E.PrintReport report)%list)) as Hmain.
    { rewrite main_run, Hsel. destruct tests as [|t l]; [done|].
      rewrite Hrun. fold xfail_set. by rewrite Hreport. }
    rewrite Hmain. split; [done|].
    assert (exit_status (inl (SystemExit (if failed then 1 else 0)) : Res unit)
            = if failed then 1 else 0) as Hstatus by (by destruct failed).
    simpl fst. rewrite Hstatus. split; [by destruct failed|].
    split; [by destruct failed|]. intros Hpolicy. split.
    + rewrite <- Hpolicy. by destruct failed.
    + intros t r Ht Hr Hname Hfailed Hxfail. destruct failed; [|done].
      assert (Exists (unexpected_failure result_name result_failed xfail_set) results)
        as Hex by (by apply Hpolicy).
      rewrite Hr in Hex.
      apply Exists_cons in Hex as [[_ Hnot]|Hnil]; [|by apply Exists_nil in Hnil].
      rewrite Hname in Hnot. done.
Qed.

Import Examples.

(** The report of the example suite that does not flag passes follows the
    policy. *)
Lemma suite_report_policy failing results xfail_set verbose :
  exists failed,
    (E2E.report_results (suite failing) results xfail_set verbose).2 = inr failed
    /\ (failed = true <-> Exists (unexpected_failure fst snd xfail_set) results).
Proof.
  eexists. split; [reflexivity|].
  rewrite existsb_exists, Exists_exists. unfold unexpected_failure.
  split; intros (r & Hin & Hr); exists r.
  - apply list_elem_of_In in Hin. split; [done|]. simpl in Hr.
    rewrite orb_false_r in Hr.
    apply andb_true_iff in Hr as [? Hr]. apply negb_true_iff, bool_decide_eq_false in Hr.
    done.
  - apply list_elem_of_In in Hin. split; [done|]. destruct Hr as [-> Hr].
    simpl. rewrite orb_false_r. by apply negb_true_iff, bool_decide_eq_false.
Qed.

Lemma test_driver_exit_status_witness :
  exit_status (E2E.main (suite ["BernoulliModule_basic"]) bernoulli_only []).1 = 0.
Proof.
  refine (proj2 (proj2 (proj2 (proj2
            (proj2 (test_driver_exit_status (suite ["BernoulliModule_basic"]) fst snd
                      bernoulli_only [])
               ["BernoulliModule_basic"] [("BernoulliModule_basic", true)]
               ["BernoulliModule_basic"] false eq_refl _ eq_refl eq_refl))) _)
            "BernoulliModule_basic" ("BernoulliModule_basic", true)
            eq_refl eq_refl eq_refl eq_refl eq_refl).
  - discriminate.
  - split; [discriminate|]. intros Hex.
    apply Exists_cons in Hex as [[_ Hnot]|Hnil]; [|by apply Exists_nil in Hnil].
    exfalso. apply Hnot. reflexivity.
Defined.

(** C8, as stated, fails: the driver exits by the flag of the report, and a
    report can set the flag without an unexpected failure. With a report
    that also flags a test of the expected-failure set that passed, the
    filter "Bernoulli" selects one test, it passes, and the driver exits with
    status 1. *)
Lemma unexpected_pass_exits_one :
  E2E.run_tests (suite_with true []) ["BernoulliModule_basic"] (test_config E2E.dylib)
  = inr [("BernoulliModule_basic", false)]
  /\ ~ (exit_status (E2E.main (suite_with true []) bernoulli_only []).1 = 1
        <-> selected (suite_with true []) bernoulli_only = inr []
            \/ Exists (unexpected_failure fst snd (expected_failures E2E.dylib))
                 [("BernoulliModule_basic", false)]).
Proof.
  split; [reflexivity|]. intros [H _].
  destruct (H eq_refl) as [Hsel|Hex]; [discriminate Hsel|].
  apply Exists_cons in Hex as [[Hfailed _]|Hnil]; [discriminate Hfailed|].
  by apply Exists_nil in Hnil.
Qed.

End TestDriver.

(** ** More on the output normalizer *)

Module NormalizerMore.
Import Py Monad Fx TorchBench Props Notions.

(** Output nodes with one-element groups, then one with a group of another
    length: the loop rewrites the former and returns at the latter. *)
Lemma for_nodes_singles_then_other ns : forall es u elts rest,
  output_args ns = (map (fun e => [ATuple [e]]) es ++ [ATuple elts] :: rest)%list ->
  length elts <> 1%nat ->
  exists ns',
    for_nodes ns u = (ns', inr ReturnNone)
    /\ output_args ns' = (map (fun e => [e]) es ++ [ATuple elts] :: rest)%list.
Proof.
  induction ns as [|node ns IH]; intros es u elts rest Hargs Hlen.
  - by destruct es.
  - destruct (is_output node) eqn:Hout.
    + rewrite Normalizer.output_args_cons_output in Hargs by done.
      destruct es as [|e es]; simpl in Hargs; injection Hargs as Hnode Hrest.
      * exists (node :: ns). simpl.
        rewrite (Normalizer.visit_other_tuple node u elts Hout Hnode Hlen).
        split; [done|]. rewrite Normalizer.output_args_cons_output by done.
        by rewrite Hnode, Hrest.
      * destruct (IH es true elts rest Hrest Hlen) as (rest' & Hloop & Hout').
        exists (set_args node [e] :: rest'). simpl.
        rewrite (Normalizer.visit_single_tuple node u e Hout Hnode), Hloop.
        split; [done|]. rewrite Normalizer.output_args_cons_output by done.
        simpl. by rewrite Hout'.
    + rewrite Normalizer.output_args_cons_other in Hargs by done.
      destruct (IH es u elts rest Hargs Hlen) as (rest' & Hloop & Hout').
      exists (node :: rest'). simpl.
      rewrite (Normalizer.visit_not_output node u Hout), Hloop. split; [done|].
      by rewrite Normalizer.output_args_cons_other.
Qed.

(** The loop runs to its end on a graph all of whose output nodes pass, sets
    the flag if one of them carries a one-element group, and leaves the
    output nodes with the unwrapped arguments. *)
Lemma for_nodes_passes ns : forall u,
  forallb passes (output_args ns) = true ->
  exists ns',
    for_nodes ns u
    = (ns', inr (Continue (u || existsb carries_single_tuple (output_args ns))))
    /\ output_args ns' = map unwrap_args (output_args ns).
Proof.
  induction ns as [|node ns IH]; intros u Hall.
  - exists []. simpl. by rewrite orb_false_r.
  - destruct (is_output node) eqn:Hout.
    + rewrite Normalizer.output_args_cons_output in * by done. simpl in Hall.
      apply andb_true_iff in Hall as [Hnode Hall].
      destruct (args node) as [|x [|? ?]] eqn:Hargs; try done. simpl in Hnode.
      destruct (is_tuple x) eqn:Ht.
      * destruct x as [|[|e [|? ?]]| | | | | | |]; try done.
        destruct (IH true Hall) as (rest' & Hloop & Hout').
        exists (set_args node [e] :: rest'). simpl.
        rewrite (Normalizer.visit_single_tuple node u e Hout Hargs), Hloop.
        rewrite orb_true_r. split; [done|].
        rewrite Normalizer.output_args_cons_output by done. simpl. by rewrite Hout'.
      * destruct (IH u Hall) as (rest' & Hloop & Hout').
        exists (node :: rest'). simpl.
        rewrite (Normalizer.visit_bare node u x Hout Hargs Ht), Hloop.
        split.
        -- by destruct x.
        -- rewrite Normalizer.output_args_cons_output by done. rewrite Hargs, Hout'.
           by destruct x.
    + rewrite Normalizer.output_args_cons_other in * by done.
      destruct (IH u Hall) as (rest' & Hloop & Hout').
      exists (node :: rest'). simpl.
      rewrite (Normalizer.visit_not_output node u Hout), Hloop. split; [done|].
      by rewrite Normalizer.output_args_cons_other.
Qed.

(** A loop that ran to its end ran on a graph all of whose output nodes
    pass. *)
Lemma for_nodes_completed_passes ns : forall u ns' u',
  for_nodes ns u = (ns', inr (Continue u')) ->
  forallb passes (output_args ns) = true.
Proof.
  induction ns as [|node ns IH]; intros u ns' u'; simpl; [done|].
  destruct (Normalizer.visit_cases node u)
    as [[-> Hcase]|[[-> _]|[(e & -> & Hout & Hargs)|[-> _]]]]; try done.
  - destruct (for_nodes ns u) as [rest' r'] eqn:Hrest. intros [= <- ->].
    apply IH in Hrest. destruct Hcase as [Hout|(a & Hargs & Ht)].
    + by rewrite Normalizer.output_args_cons_other.
    + destruct (is_output node) eqn:Hout.
      * rewrite Normalizer.output_args_cons_output by done. simpl.
        rewrite Hargs, Hrest. simpl. by rewrite Ht.
      * by rewrite Normalizer.output_args_cons_other.
  - destruct (for_nodes ns true) as [rest' r'] eqn:Hrest. intros [= <- ->].
    apply IH in Hrest. rewrite Normalizer.output_args_cons_output by done. simpl.
    by rewrite Hargs, Hrest.
Qed.

(** X1. Whatever a call of the normalizer ends with (a graph, [None] or an
    exception), it has at most overwritten arguments of output nodes of the
    graph module it was given: the nodes keep their number, order, names,
    opcodes, targets and keyword arguments, every other object in the store
    is as it was, and the only events are a call of [lint], or of [lint] and
    [recompile]; nothing is printed. *)
Theorem normalizer_frame ext w fx_g gm o w' :
  heap w !! fx_g = Some gm ->
  _unwrap_single_tuple_return ext fx_g w = (o, w') ->
  exists ns',
    heap w' = <[fx_g := {| graph := {| nodes := ns' |} |}]> (heap w)
    /\ Forall2 same_but_output_args (nodes (graph gm)) ns'
    /\ (forall r, r <> fx_g -> heap w' !! r = heap w !! r)
    /\ (events w' = events w
        \/ events w' = (events w ++ [CallLint fx_g])%list
        \/ events w' = (events w ++ [CallLint fx_g; CallRecompile fx_g])%list).
Proof.
  intros Hgm. rewrite (Normalizer.unwrap_run ext w fx_g gm Hgm).
  destruct (for_nodes (nodes (graph gm)) false) as [ns r] eqn:Hloop. intros Hrun.
  exists ns.
  assert (heap w' = <[fx_g := {| graph := {| nodes := ns |} |}]> (heap w)
          /\ (events w' = events w
              \/ events w' = (events w ++ [CallLint fx_g])%list
              \/ events w' = (events w ++ [CallLint fx_g; CallRecompile fx_g])%list))
    as [Hheap Hev].
  { destruct r as [e|[[|]|]]; simpl in Hrun.
    - injection Hrun as _ <-. split; [done|by left].
    - destruct (graph_lint ext {| nodes := ns |}); injection Hrun as _ <-;
        (split; [done|]); [right; by left | right; by right].
    - injection Hrun as _ <-. split; [done|by left].
    - injection Hrun as _ <-. split; [done|by left]. }
  split; [done|]. split; [by eapply Normalizer.for_nodes_frame|]. split; [|done].
  intros r' Hr. rewrite Hheap. by rewrite lookup_insert_ne.
Qed.

(** X2. With several output nodes the normalizer can return [None] after it
    has rewritten some: when output nodes with one-element groups are
    followed by an output node with a group of another length, the former
    are left unwrapped in the store, the call returns [None], and neither
    [lint] nor [recompile] is called on the changed graph. *)
Theorem none_after_partial_rewrite ext w fx_g gm es elts rest :
  heap w !! fx_g = Some gm ->
  es <> [] ->
  output_args (nodes (graph gm))
  = (map (fun e => [ATuple [e]]) es ++ [ATuple elts] :: rest)%list ->
  length elts <> 1%nat ->
  exists ns',
    _unwrap_single_tuple_return ext fx_g w = (inr None, with_nodes w fx_g ns')
    /\ output_args ns' = (map (fun e => [e]) es ++ [ATuple elts] :: rest)%list
    /\ ns' <> nodes (graph gm).
Proof.
  intros Hgm Hes Hargs Hlen.
  destruct (for_nodes_singles_then_other _ es false elts rest Hargs Hlen)
    as (ns' & Hloop & Hout).
  exists ns'. rewrite (Normalizer.unwrap_run ext w fx_g gm Hgm), Hloop. simpl.
  split; [done|]. split; [done|]. intros ->. rewrite Hargs in Hout.
  destruct es as [|e es]; [done|]. simpl in Hout. injection Hout as He _.
  by apply Normalizer.arg_in_own_tuple in He.
Qed.

(** X3. A graph without an output node, and a graph whose (first) output node
    carries the empty group, are left alone: the normalizer returns [None]
    and the world is as it was. *)
Theorem nothing_to_unwrap ext w fx_g gm :
  heap w !! fx_g = Some gm ->
  (output_args (nodes (graph gm)) = [] \/
   exists rest, output_args (nodes (graph gm)) = [ATuple []] :: rest) ->
  _unwrap_single_tuple_return ext fx_g w = (inr None, w).
Proof.
  intros Hgm [Hnone|[rest Hempty]]; rewrite (Normalizer.unwrap_run ext w fx_g gm Hgm).
  - rewrite (Normalizer.for_nodes_bare _ false) by (rewrite Hnone; constructor).
    simpl. by rewrite Normalizer.with_nodes_id.
  - rewrite (Normalizer.for_nodes_other_tuple _ false [] rest Hempty) by done.
    simpl. by rewrite Normalizer.with_nodes_id.
Qed.

(** X4. When [lint] rejects the rewritten graph, the normalizer raises what
    [lint] raised; the graph stays rewritten in the store, and [recompile]
    has not been called. *)
Theorem lint_rejection_keeps_rewrite ext w fx_g gm es :
  heap w !! fx_g = Some gm ->
  es <> [] ->
  output_args (nodes (graph gm)) = map (fun e => [ATuple [e]]) es ->
  exists ns',
    output_args ns' = map (fun e => [e]) es
    /\ ns' <> nodes (graph gm)
    /\ forall e,
        graph_lint ext {| nodes := ns' |} = Some e ->
        _unwrap_single_tuple_return ext fx_g w
        = (inl e, with_events (with_nodes w fx_g ns') [CallLint fx_g]).
Proof.
  intros Hgm Hes Hargs.
  destruct (Normalizer.for_nodes_single_tuples _ es false Hargs) as (ns' & Hloop & Hout).
  exists ns'. split; [done|]. split.
  - intros ->. rewrite Hargs in Hout. destruct es as [|e es]; [done|].
    simpl in Hout. injection Hout as He _. by apply Normalizer.arg_in_own_tuple in He.
  - intros e Hlint. rewrite (Normalizer.unwrap_run ext w fx_g gm Hgm), Hloop.
    destruct es; [done|]. simpl. by rewrite Hlint.
Qed.

(** X5. The normalizer rewrites exactly the graphs on which [unwraps] holds:
    every output node has one top-level argument that is no group or a
    one-element group, and at least one carries a one-element group. On such
    a graph every output node ends with the unwrapped argument, and the call
    returns the graph or raises what [lint] raised; on any other graph it
    never returns a graph. *)
Theorem rewrites_exactly_when_unwraps ext w fx_g gm :
  heap w !! fx_g = Some gm ->
  (unwraps (nodes (graph gm)) = true ->
   exists ns',
     output_args ns' = map unwrap_args (output_args (nodes (graph gm)))
     /\ _unwrap_single_tuple_return ext fx_g w
        = match graph_lint ext {| nodes := ns' |} with
          | Some e => (inl e, with_events (with_nodes w fx_g ns') [CallLint fx_g])
          | None =>
              (inr (Some fx_g),
               with_events (with_nodes w fx_g ns') [CallLint fx_g; CallRecompile fx_g])
          end)
  /\ (unwraps (nodes (graph gm)) = false ->
      forall r w', _unwrap_single_tuple_return ext fx_g w <> (inr (Some r), w')).
Proof.
  intros Hgm. rewrite (Normalizer.unwrap_run ext w fx_g gm Hgm). unfold unwraps. split.
  - intros [Hall Hex]%andb_true_iff.
    destruct (for_nodes_passes _ false Hall) as (ns' & Hloop & Hout).
    exists ns'. split; [done|]. rewrite Hloop, Hex. done.
  - intros Hno r w'.
    destruct (for_nodes (nodes (graph gm)) false) as [ns s] eqn:Hloop. simpl.
    destruct s as [e|[[|]|]]; try done.
    pose proof (for_nodes_completed_passes _ _ _ _ Hloop) as Hall.
    destruct (for_nodes_passes _ false Hall) as (ns2 & Hloop2 & _).
    rewrite Hloop in Hloop2. injection Hloop2 as _ Hex. simpl in Hex.
    rewrite Hall, <- Hex in Hno. done.
Qed.

(** X6. Each call removes one level of grouping: on a graph whose output is
    [e] inside [k] one-element groups, with a [lint] that accepts, [k] calls
    in a row each return the graph, the output is then [e], and [lint] and
    [recompile] have been called [k] times each. *)
Theorem unwrap_levels ext fx_g k : forall w gm e,
  (forall g, graph_lint ext g = None) ->
  heap w !! fx_g = Some gm ->
  output_args (nodes (graph gm)) = [[wrap k e]] ->
  exists w' gm',
    unwrap_times ext fx_g k w = Some w'
    /\ heap w' !! fx_g = Some gm'
    /\ output_args (nodes (graph gm')) = [[e]]
    /\ events w'
       = (events w ++ concat (replicate k [CallLint fx_g; CallRecompile fx_g]))%list.
Proof.
  induction k as [|k IH]; intros w gm e Hlint Hgm Hargs.
  - exists w, gm. simpl. by rewrite app_nil_r.
  - simpl in Hargs.
    destruct (Normalizer.for_nodes_single_tuples _ [wrap k e] false Hargs)
      as (ns' & Hloop & Hout).
    simpl. rewrite (Normalizer.unwrap_run ext w fx_g gm Hgm), Hloop. simpl.
    rewrite Hlint.
    set (w1 := with_events _ _).
    assert (heap w1 !! fx_g = Some {| graph := {| nodes := ns' |} |}) as Hgm1
      by (subst w1; simpl; by rewrite lookup_insert_eq).
    destruct (IH w1 _ e Hlint Hgm1 Hout) as (w' & gm' & Htimes & Hgm' & Hout' & Hev).
    exists w', gm'. split; [done|]. split; [done|]. split; [done|].
    rewrite Hev. subst w1. simpl. by rewrite <- app_assoc.
Qed.

Import Examples MoreExamples.

Lemma normalizer_frame_witness :
  exists ns',
    heap (with_nodes (world_of two_arguments) 1 (nodes (graph two_arguments)))
    = <[1%positive := {| graph := {| nodes := ns' |} |}]> (heap (world_of two_arguments))
    /\ Forall2 same_but_output_args (nodes (graph two_arguments)) ns'
    /\ (forall r, r <> 1%positive ->
        heap (with_nodes (world_of two_arguments) 1 (nodes (graph two_arguments))) !! r
        = heap (world_of two_arguments) !! r)
    /\ (events (world_of two_arguments) = events (world_of two_arguments)
        \/ events (world_of two_arguments)
           = (events (world_of two_arguments) ++ [CallLint 1])%list
        \/ events (world_of two_arguments)
           = (events (world_of two_arguments) ++ [CallLint 1; CallRecompile 1])%list).
Proof.
  apply (normalizer_frame (pipeline false) (world_of two_arguments) 1 two_arguments
           (inl (AssertionError "Output node must have a single argument"))
           (with_nodes (world_of two_arguments) 1 (nodes (graph two_arguments))));
    reflexivity.
Defined.

Lemma none_after_partial_rewrite_witness :
  exists ns',
    _unwrap_single_tuple_return (pipeline false) 1 (world_of two_outputs)
    = (inr None, with_nodes (world_of two_outputs) 1 ns')
    /\ output_args ns' = [[ANode "add"]; [ATuple [ANode "x"; ANode "add"]]]
    /\ ns' <> nodes (graph two_outputs).
Proof.
  apply (none_after_partial_rewrite (pipeline false) (world_of two_outputs) 1 two_outputs
           [ANode "add"] [ANode "x"; ANode "add"] []);
    [reflexivity | discriminate | reflexivity | simpl; lia].
Defined.

Lemma nothing_to_unwrap_witness :
  _unwrap_single_tuple_return (pipeline false) 1 (world_of empty_group)
  = (inr None, world_of empty_group).
Proof.
  apply (nothing_to_unwrap (pipeline false) (world_of empty_group) 1 empty_group);
    [reflexivity | right; by exists []].
Defined.

Lemma lint_rejection_keeps_rewrite_witness :
  exists ns',
    output_args ns' = [[ANode "add"]]
    /\ ns' <> nodes (graph single_group)
    /\ forall e,
        graph_lint rejecting {| nodes := ns' |} = Some e ->
        _unwrap_single_tuple_return rejecting 1 (world_of single_group)
        = (inl e, with_events (with_nodes (world_of single_group) 1 ns') [CallLint 1]).
Proof.
  apply (lint_rejection_keeps_rewrite rejecting (world_of single_group) 1 single_group
           [ANode "add"]); [reflexivity | discriminate | reflexivity].
Defined.

Lemma rewrites_exactly_when_unwraps_witness :
  (exists ns',
      output_args ns' = map unwrap_args (output_args (nodes (graph single_group)))
      /\ _unwrap_single_tuple_return (pipeline false) 1 (world_of single_group)
         = match graph_lint (pipeline false) {| nodes := ns' |} with
           | Some e =>
               (inl e, with_events (with_nodes (world_of single_group) 1 ns') [CallLint 1])
           | None =>
               (inr (Some 1%positive),
                with_events (with_nodes (world_of single_group) 1 ns')
                  [CallLint 1; CallRecompile 1])
           end)
  /\ forall r w',
      _unwrap_single_tuple_return (pipeline false) 1 (world_of two_outputs)
      <> (inr (Some r), w').
Proof.
  split.
  - apply (proj1 (rewrites_exactly_when_unwraps (pipeline false) (world_of single_group) 1
                    single_group eq_refl)).
    reflexivity.
  - apply (proj2 (rewrites_exactly_when_unwraps (pipeline false) (world_of two_outputs) 1
                    two_outputs eq_refl)).
    reflexivity.
Defined.

Lemma unwrap_levels_witness :
  exists w' gm',
    unwrap_times (pipeline false) 1 3 (world_of triple_group) = Some w'
    /\ heap w' !! 1%positive = Some gm'
    /\ output_args (nodes (graph gm')) = [[ANode "add"]]
    /\ events w'
       = (events (world_of triple_group)
            ++ concat (replicate 3 [CallLint 1; CallRecompile 1]))%list.
Proof.
  apply (unwrap_levels (pipeline false) 1 3 (world_of triple_group) triple_group
           (ANode "add")); [intros g | ..]; reflexivity.
Defined.

End NormalizerMore.

(** ** More on the compile adapter and on the benchmark driver *)

Module AdapterMore.
Import Py Monad Fx TorchBench Props Notions.

(** The compile adapter once the normalizer has returned and left the graph
    module [gm1] behind the reference. *)
Lemma adapter_after_normalizer ext fx_graph example_inputs use_tracing w o w1 gm1 :
  _unwrap_single_tuple_return ext fx_graph w = (inr o, w1) ->
  o = None \/ o = Some fx_graph ->
  heap w1 !! fx_graph = Some gm1 ->
  torch_mlir_compiler ext fx_graph example_inputs use_tracing w
  = (adapter_result ext use_tracing gm1 example_inputs (bool_decide (o <> None)), w1).
Proof.
  intros Hrun Ho Hgm1. unfold torch_mlir_compiler. unfold bind at 1. rewrite Hrun.
  assert (match o with Some g => g | None => fx_graph end = fx_graph) as ->
    by (by destruct Ho as [->| ->]).
  unfold bind, deref, lift, ret, adapter_result, load_graph. rewrite Hgm1.
  destruct (if use_tracing then _ else _) as [?|ts]; [done|].
  destruct (torch_mlir_compile ext ts example_inputs) as [?|lin]; [done|].
  destruct (compile_to_vmfb ext lin) as [?|vm]; [done|].
  by destruct (load_vmfb ext vm).
Qed.

Lemma for_range_split {S} (body : M S unit) (k : nat) : forall n s s',
  for_range k body s = (inr tt, s') ->
  for_range (k + n) body s = for_range n body s'.
Proof.
  induction k as [|k IH]; intros n s s'; simpl.
  - unfold ret. by intros [= ->].
  - unfold bind. destruct (body s) as [[e|[]] s1]; [done|]. apply IH.
Qed.

(** X7. On a graph whose output nodes carry one-element groups, with a
    [lint] that accepts, everything after the normalizer works on the
    rewritten graph, and the forward function, if one is returned, re-wraps.
    The graph stays rewritten in the store whether the stages return or one
    of them raises: a failed compilation does not restore the caller's
    graph. *)
Theorem adapter_on_unwrapped_graph ext w fx_graph gm es example_inputs use_tracing :
  heap w !! fx_graph = Some gm ->
  es <> [] ->
  output_args (nodes (graph gm)) = map (fun e => [ATuple [e]]) es ->
  exists ns',
    output_args ns' = map (fun e => [e]) es
    /\ ns' <> nodes (graph gm)
    /\ (graph_lint ext {| nodes := ns' |} = None ->
        torch_mlir_compiler ext fx_graph example_inputs use_tracing w
        = (adapter_result ext use_tracing {| graph := {| nodes := ns' |} |}
             example_inputs true,
           with_events (with_nodes w fx_graph ns')
             [CallLint fx_graph; CallRecompile fx_graph])).
Proof.
  intros Hgm Hes Hargs.
  destruct (Normalizer.for_nodes_single_tuples _ es false Hargs) as (ns' & Hloop & Hout).
  exists ns'. split; [done|]. split.
  - intros ->. rewrite Hargs in Hout. destruct es as [|e es]; [done|].
    simpl in Hout. injection Hout as He _. by apply Normalizer.arg_in_own_tuple in He.
  - intros Hlint.
    rewrite (adapter_after_normalizer ext fx_graph example_inputs use_tracing w
               (Some fx_graph)
               (with_events (with_nodes w fx_graph ns')
                  [CallLint fx_graph; CallRecompile fx_graph])
               {| graph := {| nodes := ns' |} |}).
    + done.
    + rewrite (Normalizer.unwrap_run ext w fx_graph gm Hgm), Hloop.
      destruct es; [done|]. simpl. by rewrite Hlint.
    + by right.
    + simpl. by rewrite lookup_insert_eq.
Qed.

(** X8. On a graph none of whose output nodes carries a one-element group
    (each has one top-level argument), the compile adapter leaves the world
    as it was, whether it returns or raises: the stages work on the caller's
    graph, and the forward function does not wrap. *)
Theorem adapter_without_unwrap ext w fx_graph gm example_inputs use_tracing :
  heap w !! fx_graph = Some gm ->
  Forall (fun a => exists x, a = [x] /\ is_single_tuple x = false)
    (output_args (nodes (graph gm))) ->
  torch_mlir_compiler ext fx_graph example_inputs use_tracing w
  = (adapter_result ext use_tracing gm example_inputs false, w).
Proof.
  intros Hgm Hall.
  destruct (Normalizer.for_nodes_no_single_tuple _ false Hall) as (s & Hloop & Hs).
  apply (adapter_after_normalizer ext fx_graph example_inputs use_tracing w None w gm);
    [|by left|done].
  rewrite (Normalizer.unwrap_run ext w fx_graph gm Hgm), Hloop. simpl.
  rewrite Normalizer.with_nodes_id by done. by destruct Hs as [->| ->].
Qed.

(** X9. The forward function never returns [None]: what it returns is a
    one-element group if the graph was unwrapped, and otherwise the empty
    group or the value the loaded module returned. It leaves the world as it
    was. *)
Theorem forward_never_none ext (ld : Loaded ext) (was_unwrapped : bool) inputs w r w' :
  forward ext ld was_unwrapped inputs w = (inr r, w') ->
  r <> VNone
  /\ w' = w
  /\ (was_unwrapped = true -> exists x, r = VTuple [x] /\ x <> VNone)
  /\ (was_unwrapped = false ->
      r = VTuple [] \/ loaded_forward ext ld inputs = inr r).
Proof.
  rewrite Adapter.forward_run.
  destruct (loaded_forward ext ld inputs) as [e|r0]; [done|]. simpl. intros [= <- <-].
  destruct was_unwrapped; (split; [by destruct r0|]); (split; [done|]); split; try done.
  - intros _. eexists. split; [done|]. by destruct r0.
  - intros _. destruct r0; try (by right). by left.
Qed.

(** X10. With the exit-on-error flag, no [Exception] leaves the compiler
    callback: whatever it raises is a [SystemExit] or another exception
    outside [Exception]. Such an exception of the compile adapter passes
    through as it is, and nothing is printed for it. *)
Theorem callback_lets_no_exception_out ext args fx_graph inputs w :
  exit_on_error args = true ->
  (forall e w',
      compiler ext args fx_graph inputs w = (inl e, w') -> is_Exception e = false)
  /\ (forall e w1,
      torch_mlir_compiler ext fx_graph inputs (trace args) w = (inl e, w1) ->
      is_Exception e = false ->
      compiler ext args fx_graph inputs w = (inl e, w1)).
Proof.
  intros Hflag. unfold compiler, try_except_Exception. rewrite Hflag.
  destruct (torch_mlir_compiler ext fx_graph inputs (trace args) w) as [[e|f] w1]; split.
  - intros e' w'. destruct (is_Exception e) eqn:He; simpl.
    + unfold bind, emit, modify, sys_exit, raise. by intros [= <- _].
    + by intros [= <- _].
  - intros e' w2 [= <- <-] He. by rewrite He.
  - done.
  - done.
Qed.

(** X11. With an iteration count of zero or less the capture scope is never
    entered: [run] reads the clock twice and prints the difference, whatever
    the model and the compiler callback are. *)
Theorem run_without_iterations ext (func : ModelObj ext) num_iter c w t0 w1 t1 w2 :
  num_iter <= 0 ->
  time_ns ext w = (inr t0, w1) ->
  time_ns ext w1 = (inr t1, w2) ->
  run ext func num_iter c w = (inr tt, with_events w2 [PrintFinished (t1 - t0)]).
Proof.
  intros Hn Ht0 Ht1. unfold run. unfold bind at 1. rewrite Ht0.
  replace (Z.to_nat num_iter) with O by lia. simpl.
  unfold bind, ret. by rewrite Ht1.
Qed.

(** X12. [run] stops at the first capture scope that raises: after [k]
    scopes that returned, with [k] below the iteration count, an exception of
    the next scope is the outcome of [run], in the world that scope left; the
    clock is not read again and no duration is printed. *)
Theorem run_stops_at_first_failure ext (func : ModelObj ext) num_iter c w t0 w1 k w2 e w3 :
  time_ns ext w = (inr t0, w1) ->
  Z.of_nat k < num_iter ->
  for_range k (optimize_invoke ext c func) w1 = (inr tt, w2) ->
  optimize_invoke ext c func w2 = (inl e, w3) ->
  run ext func num_iter c w = (inl e, w3).
Proof.
  intros Ht0 Hk Hloop Hfail. unfold run. unfold bind at 1. rewrite Ht0.
  replace (Z.to_nat num_iter) with (k + S (Z.to_nat num_iter - S k))%nat by lia.
  unfold bind at 1. rewrite (for_range_split _ k _ w1 w2 Hloop). simpl.
  unfold bind at 1. by rewrite Hfail.
Qed.

Import Examples MoreExamples.

Lemma adapter_on_unwrapped_graph_witness :
  exists ns',
    output_args ns' = [[ANode "add"]]
    /\ ns' <> nodes (graph single_group)
    /\ (graph_lint (pipeline true) {| nodes := ns' |} = None ->
        torch_mlir_compiler (pipeline true) 1 [tensor 0] false (world_of single_group)
        = (adapter_result (pipeline true) false {| graph := {| nodes := ns' |} |}
             [tensor 0] true,
           with_events (with_nodes (world_of single_group) 1 ns')
             [CallLint 1; CallRecompile 1])).
Proof.
  apply (adapter_on_unwrapped_graph (pipeline true) (world_of single_group) 1 single_group
           [ANode "add"] [tensor 0] false); [reflexivity | discriminate | reflexivity].
Defined.

Lemma adapter_without_unwrap_witness :
  torch_mlir_compiler (pipeline true) 1 [tensor 0] false (world_of pair_group)
  = (inl (Exception (Text "unsupported op")), world_of pair_group).
Proof.
  apply (adapter_without_unwrap (pipeline true) (world_of pair_group) 1 pair_group
           [tensor 0] false); [reflexivity|].
  simpl. constructor; [|constructor]. by eexists.
Defined.

Lemma forward_never_none_witness :
  tensor 7 <> VNone
  /\ world_of bare_output = world_of bare_output
  /\ (false = true -> exists x, tensor 7 = VTuple [x] /\ x <> VNone)
  /\ (false = false ->
      tensor 7 = VTuple []
      \/ loaded_forward (pipeline false) bare_output [tensor 0] = inr (tensor 7)).
Proof.
  apply (forward_never_none (pipeline false) bare_output false [tensor 0]
           (world_of bare_output) (tensor 7) (world_of bare_output)).
  reflexivity.
Defined.

Lemma callback_lets_no_exception_out_witness :
  (forall e w',
      compiler (pipeline true) (command_line "resnet18" true) 1%positive [tensor 0]
        (world_of single_group) = (inl e, w') ->
      is_Exception e = false)
  /\ (forall e w1,
      torch_mlir_compiler (pipeline true) 1 [tensor 0] false (world_of single_group)
      = (inl e, w1) ->
      is_Exception e = false ->
      compiler (pipeline true) (command_line "resnet18" true) 1%positive [tensor 0]
        (world_of single_group) = (inl e, w1)).
Proof.
  apply (callback_lets_no_exception_out (pipeline true) (command_line "resnet18" true)
           1%positive [tensor 0] (world_of single_group)).
  reflexivity.
Defined.

Lemma run_without_iterations_witness :
  run (pipeline true) tt 0 (compiler (pipeline true) (command_line "resnet18" false))
    (world_of single_group)
  = (inr tt, with_events (world_of single_group) [PrintFinished (0 - 0)]).
Proof.
  apply (run_without_iterations (pipeline true) tt 0
           (compiler (pipeline true) (command_line "resnet18" false))
           (world_of single_group) 0 (world_of single_group) 0 (world_of single_group));
    [lia | reflexivity | reflexivity].
Defined.

Lemma run_stops_at_first_failure_witness :
  run (pipeline true) tt 2 (compiler (pipeline true) (command_line "resnet18" false))
    (world_of single_group)
  = (inl (Exception (Text "unsupported op")),
     rewritten (world_of single_group) [ANode "add"]).
Proof.
  apply (run_stops_at_first_failure (pipeline true) tt 2
           (compiler (pipeline true) (command_line "resnet18" false))
           (world_of single_group) 0 (world_of single_group) 0 (world_of single_group));
    [reflexivity | lia | reflexivity | reflexivity].
Defined.

End AdapterMore.

(** ** More on the recursive conversion, and the invoker *)

Module ConversionMore.
Import Py Props Notions.

Lemma find_app_none {A} (f : A -> bool) (l1 l2 : list A) :
  find f l1 = None -> find f (l1 ++ l2) = find f l2.
Proof.
  induction l1 as [|x l1 IH]; simpl; [done|]. by destruct (f x).
Qed.

Lemma find_app_some {A} (f : A -> bool) (l1 l2 : list A) x :
  find f l1 = Some x -> find f (l1 ++ l2) = Some x.
Proof.
  induction l1 as [|y l1 IH]; simpl; [done|]. by destruct (f y).
Qed.

Section WithAsarray.
Context (np_asarray : ArrayData -> ArrayData).

Local Abbreviation convert := (E2E.recursively_convert_to_numpy np_asarray).

(** The leaves of a converted structure are the leaves of the original, in
    order, each array moved to the host. *)
Lemma leaves_of_converted (v : PyVal) : forall v',
  converted np_asarray v v' -> leaves v' = map (to_host np_asarray) (leaves v).
Proof.
  induction v as [ |a|a|xs IH|xs IH|items IH|s|f|z|b|cls id] using PyVal_nested_ind;
    intros v' Hc; inversion Hc; subst; simpl; try reflexivity.
  - match goal with H : Forall2 _ xs _ |- _ =>
      clear Hc; revert IH; induction H as [|x y xs' ys' Hxy _ IH']; intros IH end;
      [done|]. simpl. rewrite map_app.
    apply Forall_cons in IH as [IHx IHxs]. rewrite (IHx y Hxy). f_equal. by apply IH'.
  - match goal with H : Forall2 _ xs _ |- _ =>
      clear Hc; revert IH; induction H as [|x y xs' ys' Hxy _ IH']; intros IH end;
      [done|]. simpl. rewrite map_app.
    apply Forall_cons in IH as [IHx IHxs]. rewrite (IHx y Hxy). f_equal. by apply IH'.
  - match goal with H : Forall2 _ items _ |- _ =>
      clear Hc; revert IH; induction H as [|x y xs' ys' [_ Hxy] _ IH']; intros IH end;
      [done|]. simpl. rewrite map_app.
    apply Forall_cons in IH as [IHx IHxs]. rewrite (IHx _ Hxy). f_equal. by apply IH'.
Qed.

(** A converted structure without arrays is the original. *)
Lemma converted_scalars (v : PyVal) : forall v',
  converted np_asarray v v' -> forallb scalar_leaf (leaves v) = true -> v' = v.
Proof.
  induction v as [ |a|a|xs IH|xs IH|items IH|s|f|z|b|cls id] using PyVal_nested_ind;
    intros v' Hc; inversion Hc; subst; simpl; try done.
  - intros Hs. f_equal.
    match goal with H : Forall2 _ xs _ |- _ =>
      clear Hc; revert IH Hs; induction H as [|x y xs' ys' Hxy _ IH']; intros IH Hs end;
      [done|]. simpl in Hs. rewrite forallb_app in Hs.
    apply andb_true_iff in Hs as [Hx Hxs].
    apply Forall_cons in IH as [IHx IHxs]. rewrite (IHx y Hxy Hx). f_equal. by apply IH'.
  - intros Hs. f_equal.
    match goal with H : Forall2 _ xs _ |- _ =>
      clear Hc; revert IH Hs; induction H as [|x y xs' ys' Hxy _ IH']; intros IH Hs end;
      [done|]. simpl in Hs. rewrite forallb_app in Hs.
    apply andb_true_iff in Hs as [Hx Hxs].
    apply Forall_cons in IH as [IHx IHxs]. rewrite (IHx y Hxy Hx). f_equal. by apply IH'.
  - intros Hs. f_equal.
    match goal with H : Forall2 _ items _ |- _ =>
      clear Hc; revert IH Hs;
      induction H as [|[k x] [k' y] xs' ys' [Hk Hxy] _ IH']; intros IH Hs end;
      [done|]. simpl in *. rewrite forallb_app in Hs.
    apply andb_true_iff in Hs as [Hx Hxs].
    apply Forall_cons in IH as [IHx IHxs]. simpl in IHx.
    rewrite (IHx y Hxy Hx), Hk. f_equal. by apply IH'.
Qed.

Lemma map_res_first (xs : list PyVal) :
  Forall (fun x => first_outcome x (convert x)) xs ->
  match E2E.map_res convert xs with
  | inr _ => find unrecognized_leaf (List.flat_map leaves xs) = None
  | inl e =>
      exists o, find unrecognized_leaf (List.flat_map leaves xs) = Some o
                /\ e = Exception (UnexpectedPythonType o)
  end.
Proof.
  induction 1 as [|x xs Hx _ IH]; simpl; [done|].
  unfold first_outcome in Hx. destruct (convert x) as [e|y].
  - destruct Hx as (o & Hfind & ->). exists o. split; [|done]. by apply find_app_some.
  - rewrite (find_app_none _ _ _ Hx). by destruct (E2E.map_res convert xs).
Qed.

Lemma map_res_items_first (items : list (Key * PyVal)) :
  Forall (fun kv => first_outcome (snd kv) (convert (snd kv))) items ->
  match E2E.map_res
          (fun kv : Key * PyVal =>
             let '(k, v) := kv in
             match convert v with
             | inl e => inl e
             | inr v' => inr (k, v')
             end) items with
  | inr _ =>
      find unrecognized_leaf
        (List.flat_map (fun kv : Key * PyVal => leaves (snd kv)) items) = None
  | inl e =>
      exists o, find unrecognized_leaf
                  (List.flat_map (fun kv : Key * PyVal => leaves (snd kv)) items) = Some o
                /\ e = Exception (UnexpectedPythonType o)
  end.
Proof.
  induction 1 as [|[k v] items Hx _ IH]; simpl; [done|].
  unfold first_outcome in Hx. simpl in Hx. destruct (convert v) as [e|y].
  - destruct Hx as (o & Hfind & ->). exists o. split; [|done]. by apply find_app_some.
  - rewrite (find_app_none _ _ _ Hx). by destruct (E2E.map_res _ items).
Qed.

Lemma convert_first (v : PyVal) : first_outcome v (convert v).
Proof.
  induction v as [ |a|a|xs IH|xs IH|items IH|s|f|z|b|cls id] using PyVal_nested_ind;
    simpl; try reflexivity; try (by eexists).
  - pose proof (map_res_first xs IH) as H. by destruct (E2E.map_res convert xs).
  - pose proof (map_res_first xs IH) as H. by destruct (E2E.map_res convert xs).
  - pose proof (map_res_items_first items IH) as H. by destruct (E2E.map_res _ items).
Qed.

Lemma convert_raises_first (v : PyVal) (e : exn) :
  convert v = inl e
  <-> exists o, find unrecognized_leaf (leaves v) = Some o
                /\ e = Exception (UnexpectedPythonType o).
Proof.
  pose proof (convert_first v) as H. unfold first_outcome in H. split.
  - intros He. by rewrite He in H.
  - intros (o & Hfind & ->). destruct (convert v) as [e'|v'].
    + destruct H as (o' & Hfind' & ->). congruence.
    + congruence.
Qed.

(** X13. On a structure without arrays, whose leaves are strings, floats and
    integers, the conversion returns a structure equal to its input: the same
    nesting of tuples, lists and dicts, the same keys, the same leaves. (The
    code builds the tuples, lists and dicts anew; values here are compared by
    content.) *)
Theorem conversion_identity_without_arrays (v : PyVal) :
  forallb scalar_leaf (leaves v) = true -> convert v = inr v.
Proof.
  intros Hs. pose proof (Conversion.convert_outcome np_asarray v) as H.
  unfold conversion_outcome in H. destruct (convert v) as [e|v'].
  - destruct H as (o & Hin & Hrec & _). rewrite forallb_forall in Hs.
    apply Hs in Hin. by destruct o.
  - destruct H as [Hc _]. f_equal. by apply converted_scalars.
Qed.

(** X14. When the conversion returns, the leaves of the result are the leaves
    of the input in the same order, with the host array of [np.asarray] for
    every device array; no device array is left in the result. *)
Theorem conversion_moves_arrays_to_host (v v' : PyVal) :
  convert v = inr v' ->
  leaves v' = map (to_host np_asarray) (leaves v)
  /\ existsb is_device_array (leaves v') = false.
Proof.
  intros Hv. pose proof (Conversion.convert_outcome np_asarray v) as H.
  unfold conversion_outcome in H. rewrite Hv in H. destruct H as [Hc _].
  rewrite (leaves_of_converted v v' Hc). split; [done|].
  induction (leaves v) as [|x l IH]; simpl; [done|]. rewrite IH. by destruct x.
Qed.

(** X15. The conversion cannot be applied to its own result when there was
    an array: a host array is not among the types it names, so converting
    the converted structure raises on a host array. *)
Theorem conversion_rejects_its_arrays (v v' : PyVal) :
  convert v = inr v' ->
  existsb is_device_array (leaves v) = true ->
  exists a, convert v' = inl (Exception (UnexpectedPythonType (VNdarray a))).
Proof.
  intros Hv Hdev. pose proof (Conversion.convert_outcome np_asarray v) as H.
  unfold conversion_outcome in H. rewrite Hv in H. destruct H as [Hc Hrec].
  pose proof (leaves_of_converted v v' Hc) as Hleaves.
  pose proof (Conversion.convert_outcome np_asarray v') as H'.
  unfold conversion_outcome in H'. destruct (convert v') as [e|v''].
  - destruct H' as (o & Hin & Ho & ->). rewrite Hleaves in Hin.
    apply in_map_iff in Hin as (x & <- & Hx).
    rewrite forallb_forall in Hrec. apply Hrec in Hx.
    destruct x; try done. by eexists.
  - destruct H' as [_ Hrec']. rewrite Hleaves in Hrec'.
    apply existsb_exists in Hdev as (x & Hx & Hd).
    rewrite forallb_forall in Hrec'.
    specialize (Hrec' (to_host np_asarray x) (in_map _ _ _ Hx)). by destruct x.
Qed.

(** X16. The exception of the conversion reports the first unrecognized leaf
    in left-to-right order: the conversion raises [e] if and only if [e] is
    the [Exception] for the first leaf of a type it does not name. *)
Theorem conversion_reports_first_unrecognized (v : PyVal) (e : exn) :
  convert v = inl e
  <-> exists o, find unrecognized_leaf (leaves v) = Some o
                /\ e = Exception (UnexpectedPythonType o).
Proof.
  pose proof (convert_first v) as H. unfold first_outcome in H. split.
  - intros He. by rewrite He in H.
  - intros (o & Hfind & ->). destruct (convert v) as [e'|v'].
    + destruct H as (o' & Hfind' & ->). congruence.
    + congruence.
Qed.

(** X17. A call through the invoker converts what the runtime function
    returns: when the module has the function and it returns a structure
    whose leaves are all recognized, the call returns that structure with its
    arrays moved to the host. The arguments reach the function as they
    are. *)
Theorem invoke_converts_result (self : IREE.IREEInvoker) function_name f args result :
  IREE._iree_module self function_name = inr f ->
  f args = inr result ->
  forallb recognized_leaf (leaves result) = true ->
  exists v',
    IREE.__getattr__ np_asarray self function_name args = inr v'
    /\ converted np_asarray result v'
    /\ leaves v' = map (to_host np_asarray) (leaves result).
Proof.
  intros Hf Hres Hrec. unfold IREE.__getattr__, IREE.invoke. rewrite Hf, Hres.
  pose proof (Conversion.convert_outcome np_asarray result) as H.
  unfold conversion_outcome in H. destruct (convert result) as [e|v'].
  - destruct H as (o & Hin & Ho & _). rewrite forallb_forall in Hrec.
    apply Hrec in Hin. congruence.
  - destruct H as [Hc _]. exists v'. split; [done|]. split; [done|].
    by apply leaves_of_converted.
Qed.

(** X18. A call through the invoker raises in exactly three ways: the module
    has no function of that name, the function raises, or the result has a
    leaf of a type the conversion does not name (as the [None] of a function
    without results), in which case the first such leaf is reported. Looking
    the attribute up never raises; the module is consulted when the callable
    is called. *)
Theorem invoke_raises_iff (self : IREE.IREEInvoker) function_name args e :
  IREE.__getattr__ np_asarray self function_name args = inl e
  <-> IREE._iree_module self function_name = inl e
      \/ (exists f, IREE._iree_module self function_name = inr f /\ f args = inl e)
      \/ (exists f result o,
            IREE._iree_module self function_name = inr f
            /\ f args = inr result
            /\ find unrecognized_leaf (leaves result) = Some o
            /\ e = Exception (UnexpectedPythonType o)).
Proof.
  unfold IREE.__getattr__, IREE.invoke.
  destruct (IREE._iree_module self function_name) as [e0|f] eqn:Hf.
  - split; [intros [= ->]; by left|].
    intros [[= ->]|[(f & [=] & _)|(f & result & o & [=] & _)]]. done.
  - destruct (f args) as [e1|result] eqn:Hres.
    + split.
      * intros [= ->]. right; left. by exists f.
      * intros [[=]|[(f' & [= <-] & Hf')|(f' & result & o & [= <-] & Hr & _)]];
          congruence.
    + rewrite convert_raises_first. split.
      * intros (o & Hfind & ->). right; right. by exists f, result, o.
      * intros [[=]|[(f' & [= <-] & Hf')|(f' & result' & o & [= <-] & Hr & Hfind & ->)]];
          [congruence|]. exists o. split; [congruence|done].
Qed.

End WithAsarray.

Import Examples MoreExamples.

Lemma conversion_identity_without_arrays_witness :
  E2E.recursively_convert_to_numpy (fun a => a) scalars_only = inr scalars_only.
Proof.
  apply (conversion_identity_without_arrays (fun a => a) scalars_only). reflexivity.
Defined.

Lemma conversion_moves_arrays_to_host_witness :
  leaves nested_result_on_host = map (to_host (fun a => a)) (leaves nested_result)
  /\ existsb is_device_array (leaves nested_result_on_host) = false.
Proof.
  apply (conversion_moves_arrays_to_host (fun a => a) nested_result nested_result_on_host).
  reflexivity.
Defined.

Lemma conversion_rejects_its_arrays_witness :
  exists a,
    E2E.recursively_convert_to_numpy (fun a => a) nested_result_on_host
    = inl (Exception (UnexpectedPythonType (VNdarray a))).
Proof.
  apply (conversion_rejects_its_arrays (fun a => a) nested_result nested_result_on_host);
    reflexivity.
Defined.

Lemma invoke_converts_result_witness :
  exists v',
    IREE.__getattr__ (fun a => a) runtime_module "forward" [VDeviceArray array_0] = inr v'
    /\ converted (fun a => a)
         (VTuple [VDeviceArray array_0; VFloat (S754_finite false 1 1)]) v'
    /\ leaves v'
       = map (to_host (fun a => a))
           (leaves (VTuple [VDeviceArray array_0; VFloat (S754_finite false 1 1)])).
Proof.
  apply (invoke_converts_result (fun a => a) runtime_module "forward"
           (fun _ => inr (VTuple [VDeviceArray array_0; VFloat (S754_finite false 1 1)]))
           [VDeviceArray array_0]);
    reflexivity.
Defined.

End ConversionMore.

(** ** More on the test driver *)

Module TestDriverMore.
Import Py Monad Props.

(** X19. When the filter selects no test, [main] prints the error line with
    the filter, the line that announces the available tests, and the name of
    every registered test in registry order, and exits with status 1; no test
    is run and nothing is reported. *)
Theorem no_match_lists_registry ext args out :
  selected ext args = inr [] ->
  E2E.main ext args out
  = (inl (SystemExit 1),
     (out ++ [E2E.PrintNoMatch (E2E.filter args); E2E.PrintAvailable]
          ++ map (fun test => E2E.PrintTestName (E2E.unique_name ext test))
               (E2E.GLOBAL_TEST_REGISTRY ext))%list).
Proof.
  intros Hnone. rewrite TestDriver.main_run. by rewrite Hnone.
Qed.


Import Examples MoreExamples.

Lemma no_match_lists_registry_witness :
  E2E.main (suite []) no_such_test []
  = (inl (SystemExit 1),
     [E2E.PrintNoMatch "NoSuchTest"; E2E.PrintAvailable;
      E2E.PrintTestName "FooModule_basic"; E2E.PrintTestName "BernoulliModule_basic"]).
Proof.
  apply (no_match_lists_registry (suite []) no_such_test []). reflexivity.
Defined.


End TestDriverMore.
